(** * AUDITIONS-gptaudio: the rubric runner and its desktop front end

  A shallow embedding of [audio_analysis_smoke.py] (the command-line
  tool) and [gui.py] (the tkinter front end), with the properties of the
  repository's specification stated and proved over it.

  Conventions.
  - A Python [str] is modelled by the byte string of its UTF-8 encoding
    (Rocq's [string], one [ascii] per byte).  Every character the
    sources look at ('{', '}', '.', '/', the back quote, ASCII letters)
    is a single byte that never occurs inside a multi-byte sequence, so
    searching, slicing and counting agree with Python's.
  - Python's [None] as a parsed JSON value is [JNull].
  - Library calls with an outcome the program cannot control (the
    remote model, the clock, the child process, the file dialog) are
    inputs of the model. *)

From Stdlib Require Import ZArith Lia Ascii String List Bool DecimalString.
From stdpp Require Import base gmap strings list.

Set Warnings "-register-all".

Local Open Scope Z_scope.

(* ===================================================================== *)
(** * Python string operations used by the sources                        *)
(* ===================================================================== *)

Module PyStr.

Definition ch_eqb (a b : ascii) : bool := Ascii.eqb a b.

(** [len(s)] *)
Definition len (s : string) : nat := String.length s.

(** [s[:n]] *)
Fixpoint take (n : nat) (s : string) : string :=
  match n, s with
  | S n', String c s' => String c (take n' s')
  | _, _ => EmptyString
  end.

(** [s[n:]] *)
Fixpoint drop (n : nat) (s : string) : string :=
  match n, s with
  | S n', String _ s' => drop n' s'
  | _, _ => s
  end.

(** [s[i:j]] for [0 <= i] and [0 <= j] *)
Definition slice (i j : nat) (s : string) : string :=
  take (j - i) (drop i s).

(** [s.find(c)] for a one-character needle; [None] stands for [-1]. *)
Fixpoint find (c : ascii) (s : string) : option nat :=
  match s with
  | EmptyString => None
  | String d s' =>
      if ch_eqb d c then Some O
      else match find c s' with
           | Some i => Some (S i)
           | None => None
           end
  end.

(** [s.rfind(c)] for a one-character needle. *)
Fixpoint rfind (c : ascii) (s : string) : option nat :=
  match s with
  | EmptyString => None
  | String d s' =>
      match rfind c s' with
      | Some i => Some (S i)
      | None => if ch_eqb d c then Some O else None
      end
  end.

(** [s.count(c)] for a one-character needle. *)
Fixpoint count (c : ascii) (s : string) : nat :=
  match s with
  | EmptyString => O
  | String d s' => ((if ch_eqb d c then 1 else 0) + count c s')%nat
  end.

(** [s.startswith(p)] *)
Fixpoint startswith (p s : string) : bool :=
  match p, s with
  | EmptyString, _ => true
  | String a p', String b s' => ch_eqb a b && startswith p' s'
  | String _ _, EmptyString => false
  end.

(** The last character of [s], if any ([s[-1]]). *)
Fixpoint last (s : string) : option ascii :=
  match s with
  | EmptyString => None
  | String c EmptyString => Some c
  | String _ s' => last s'
  end.

(** [c.lower()] on one byte: only ASCII letters change. *)
Definition lower_ch (c : ascii) : ascii :=
  let n := nat_of_ascii c in
  if ((65 <=? n) && (n <=? 90))%nat then ascii_of_nat (n + 32) else c.

(** [s.lower()] *)
Fixpoint lower (s : string) : string :=
  match s with
  | EmptyString => EmptyString
  | String c s' => String (lower_ch c) (lower s')
  end.

(** [s.lstrip(c)] for a one-character set. *)
Fixpoint lstrip (c : ascii) (s : string) : string :=
  match s with
  | String d s' => if ch_eqb d c then lstrip c s' else s
  | EmptyString => EmptyString
  end.

(** Python truthiness of a [str]: the empty string is falsy. *)
Definition truthy (s : string) : bool :=
  match s with EmptyString => false | String _ _ => true end.

(** ** Elementary facts *)

Lemma ch_eqb_eq a b : ch_eqb a b = true <-> a = b.
Proof. unfold ch_eqb. apply Ascii.eqb_eq. Qed.


Lemma ch_eqb_neq a b : ch_eqb a b = false <-> a <> b.
Proof. unfold ch_eqb. apply Ascii.eqb_neq. Qed.

Lemma app_cons c s t : (String c s ++ t)%string = String c (s ++ t)%string.
Proof. reflexivity. Qed.

Lemma take_0 s : take 0 s = EmptyString.
Proof. destruct s; reflexivity. Qed.

Lemma len_take n s : len (take n s) = Nat.min n (len s).
Proof.
  revert s. induction n as [|n IH]; intros [|c s]; simpl; try reflexivity.
  unfold len in IH. rewrite IH. reflexivity.
Qed.

Lemma take_all n s : (len s <= n)%nat -> take n s = s.
Proof.
  revert s. induction n as [|n IH]; intros [|c s] H; simpl in *;
    try reflexivity; try lia.
  f_equal. apply IH. unfold len in *. lia.
Qed.

Lemma take_drop n s : (take n s ++ drop n s)%string = s.
Proof.
  revert s. induction n as [|n IH]; intros [|c s]; simpl; try reflexivity.
  rewrite app_cons. f_equal. apply IH.
Qed.

Lemma take_take n m s : (n <= m)%nat -> take n (take m s) = take n s.
Proof.
  revert m s. induction n as [|n IH]; intros m s H.
  - rewrite !take_0. reflexivity.
  - destruct m as [|m]; [lia|]. destruct s as [|c s]; simpl; [reflexivity|].
    f_equal. apply IH. lia.
Qed.

Lemma count_app c s t : count c (s ++ t)%string = (count c s + count c t)%nat.
Proof.
  induction s as [|d s IH]; [reflexivity|].
  rewrite app_cons. simpl. rewrite IH. lia.
Qed.

Lemma find_none_count c s : find c s = None <-> count c s = O.
Proof.
  induction s as [|d s IH]; simpl; [tauto|].
  destruct (ch_eqb d c); simpl.
  - split; discriminate.
  - destruct (find c s); split; intros H; try discriminate.
    + apply IH in H. discriminate.
    + apply IH. reflexivity.
    + reflexivity.
Qed.

Lemma find_none_get c s :
  find c s = None <-> forall i, String.get i s <> Some c.
Proof.
  induction s as [|d s IH]; simpl.
  - split; [intros _ i; destruct i; discriminate | reflexivity].
  - destruct (ch_eqb d c) eqn:E.
    + apply ch_eqb_eq in E. subst d. split; [discriminate|].
      intros H. exfalso. apply (H O). reflexivity.
    + apply ch_eqb_neq in E. destruct (find c s) eqn:F.
      * split; [discriminate|]. intros H. exfalso.
        assert (G : forall i, String.get i s <> Some c)
          by (intros i; apply (H (S i))).
        apply IH in G. discriminate.
      * split; [|reflexivity]. intros _ [|i]; simpl.
        -- congruence.
        -- apply IH. reflexivity.
Qed.

(** [find] returns the first occurrence: the character is there, and the
    text before it does not contain it. *)
Lemma find_some c s i :
  find c s = Some i ->
  count c (take i s) = O /\ exists rest, drop i s = String c rest.
Proof.
  revert i. induction s as [|d s IH]; simpl; intros i H; [discriminate|].
  destruct (ch_eqb d c) eqn:E.
  - inversion H; subst i. apply ch_eqb_eq in E. subst d.
    split; [reflexivity | eexists; reflexivity].
  - destruct (find c s) as [j|] eqn:F; [|discriminate].
    inversion H; subst i. destruct (IH j eq_refl) as [Hc Hd].
    simpl. rewrite E. split; [exact Hc | exact Hd].
Qed.

Lemma last_app_single s c : last (s ++ String c EmptyString)%string = Some c.
Proof.
  induction s as [|d s IH]; [reflexivity|].
  rewrite app_cons. simpl.
  destruct (s ++ String c EmptyString)%string eqn:E; [|exact IH].
  destruct s; discriminate.
Qed.

Lemma take_S_get n s c :
  String.get n s = Some c ->
  take (S n) s = (take n s ++ String c EmptyString)%string.
Proof.
  revert s. induction n as [|n IH]; intros [|d s] H; simpl in *;
    try discriminate.
  - inversion H; subst. destruct s; reflexivity.
  - rewrite app_cons. f_equal. apply IH. exact H.
Qed.

End PyStr.

(* ===================================================================== *)
(** * JSON values and a model of [json.loads]                             *)
(* ===================================================================== *)

(** [json.loads] belongs to Python's standard library, not to the
  repository.  The program's own functions below take it as a parameter;
  [Json.loads] is a model of the decoder (strict mode, the grammar of
  CPython's scanner) with which they are run on concrete replies. *)

Module Json.

(** What [json.loads] returns: [None], [bool], [int], [float], [str],
    [list] and [dict].  A float keeps its source text; an object keeps
    its members in source order. *)
Inductive value : Type :=
| JNull
| JBool (b : bool)
| JInt (n : Z)
| JFloat (lexeme : string)
| JString (s : string)
| JArray (items : list value)
| JObject (members : list (string * value)).

(** [v is None] *)
Definition is_None (v : value) : bool :=
  match v with JNull => true | _ => false end.

Definition code (c : ascii) : N := N_of_ascii c.

Definition is_ws (c : ascii) : bool :=
  let n := code c in
  ((n =? 32) || (n =? 9) || (n =? 10) || (n =? 13))%N.

Fixpoint skip_ws (s : string) : string :=
  match s with
  | String c s' => if is_ws c then skip_ws s' else s
  | EmptyString => EmptyString
  end.

Definition is_digit (c : ascii) : bool :=
  let n := code c in ((48 <=? n) && (n <=? 57))%N.

(** The longest prefix of decimal digits, and what follows it. *)
Fixpoint span_digits (s : string) : string * string :=
  match s with
  | String c s' =>
      if is_digit c
      then let '(d, r) := span_digits s' in (String c d, r)
      else (EmptyString, s)
  | EmptyString => (EmptyString, EmptyString)
  end.

Fixpoint digits_value (acc : Z) (s : string) : Z :=
  match s with
  | String c s' => digits_value (10 * acc + Z.of_N (code c - 48)) s'
  | EmptyString => acc
  end.

Definition hex_value (c : ascii) : option N :=
  let n := code c in
  if ((48 <=? n) && (n <=? 57))%N then Some (n - 48)%N
  else if ((65 <=? n) && (n <=? 70))%N then Some (n - 55)%N
  else if ((97 <=? n) && (n <=? 102))%N then Some (n - 87)%N
  else None.

Definition hex4 (a b c d : ascii) : option N :=
  match hex_value a, hex_value b, hex_value c, hex_value d with
  | Some x, Some y, Some z, Some w => Some (((x * 16 + y) * 16 + z) * 16 + w)%N
  | _, _, _, _ => None
  end.

Definition byte_of (n : N) : ascii := ascii_of_N (n mod 256).

(** The UTF-8 encoding of one code point. *)
Definition utf8 (cp : N) : string :=
  if (cp <? 128)%N then String (byte_of cp) EmptyString
  else if (cp <? 2048)%N then
    String (byte_of (192 + cp / 64))
      (String (byte_of (128 + cp mod 64)) EmptyString)
  else if (cp <? 65536)%N then
    String (byte_of (224 + cp / 4096))
      (String (byte_of (128 + (cp / 64) mod 64))
         (String (byte_of (128 + cp mod 64)) EmptyString))
  else
    String (byte_of (240 + cp / 262144))
      (String (byte_of (128 + (cp / 4096) mod 64))
         (String (byte_of (128 + (cp / 64) mod 64))
            (String (byte_of (128 + cp mod 64)) EmptyString))).

(** The pieces of a string literal: a byte taken as it is, or the code
    unit of an escape. *)
Inductive piece : Type :=
| Raw (c : ascii)
| Unit16 (u : N).

Definition simple_escape (c : ascii) : option N :=
  let n := code c in
  if (n =? 34)%N then Some 34%N          (* quote *)
  else if (n =? 92)%N then Some 92%N     (* backslash *)
  else if (n =? 47)%N then Some 47%N     (* slash *)
  else if (n =? 98)%N then Some 8%N      (* b *)
  else if (n =? 102)%N then Some 12%N    (* f *)
  else if (n =? 110)%N then Some 10%N    (* n *)
  else if (n =? 114)%N then Some 13%N    (* r *)
  else if (n =? 116)%N then Some 9%N     (* t *)
  else None.

(** [scanstring] after the opening quote: the pieces up to the closing
    quote, and the text after it.  A control character, an unknown
    escape or a missing closing quote is an error. *)
Fixpoint scan_pieces (s : string) : option (list piece * string) :=
  match s with
  | EmptyString => None
  | String c s' =>
      let n := code c in
      if (n =? 34)%N then Some ([], s')
      else if (n =? 92)%N then
        match s' with
        | String e s'' =>
            if (code e =? 117)%N then
              match s'' with
              | String h1 (String h2 (String h3 (String h4 r))) =>
                  match hex4 h1 h2 h3 h4 with
                  | Some u =>
                      match scan_pieces r with
                      | Some (ps, rest) => Some (Unit16 u :: ps, rest)
                      | None => None
                      end
                  | None => None
                  end
              | _ => None
              end
            else
              match simple_escape e with
              | Some u =>
                  match scan_pieces s'' with
                  | Some (ps, rest) => Some (Unit16 u :: ps, rest)
                  | None => None
                  end
              | None => None
              end
        | EmptyString => None
        end
      else if (n <? 32)%N then None
      else
        match scan_pieces s' with
        | Some (ps, rest) => Some (Raw c :: ps, rest)
        | None => None
        end
  end.

Definition is_high (u : N) : bool := ((55296 <=? u) && (u <=? 56319))%N.
Definition is_low (u : N) : bool := ((56320 <=? u) && (u <=? 57343))%N.

(** The decoded text: a high surrogate escape directly followed by a low
    one is one code point. *)
Fixpoint join_pieces (ps : list piece) : string :=
  match ps with
  | [] => EmptyString
  | Raw c :: ps' => String c (join_pieces ps')
  | Unit16 u :: ps' =>
      match ps' with
      | Unit16 v :: ps'' =>
          if is_high u && is_low v
          then (utf8 (65536 + (u - 55296) * 1024 + (v - 56320))
                  ++ join_pieces ps'')%string
          else (utf8 u ++ join_pieces ps')%string
      | _ => (utf8 u ++ join_pieces ps')%string
      end
  end.

Definition scanstring (s : string) : option (string * string) :=
  match scan_pieces s with
  | Some (ps, rest) => Some (join_pieces ps, rest)
  | None => None
  end.

(** The decoder's number pattern matched at the head of [s]: an optional
    minus sign, then a single 0 or a digit 1-9 followed by digits; an
    optional fraction (a dot and one digit or more); an optional exponent
    (e or E, an optional sign, one digit or more). *)
Definition match_int (s : string) : option (string * string) :=
  let '(sign, r) :=
    match s with
    | String c r => if (code c =? 45)%N then ("-"%string, r) else (EmptyString, s)
    | EmptyString => (EmptyString, s)
    end in
  match r with
  | String c r' =>
      if (code c =? 48)%N then Some ((sign ++ "0")%string, r')
      else if is_digit c then
        let '(d, rest) := span_digits r in Some ((sign ++ d)%string, rest)
      else None
  | EmptyString => None
  end.

Definition match_frac (s : string) : string * string :=
  match s with
  | String c r =>
      if (code c =? 46)%N then
        match span_digits r with
        | (EmptyString, _) => (EmptyString, s)
        | (d, rest) => (String c d, rest)
        end
      else (EmptyString, s)
  | EmptyString => (EmptyString, s)
  end.

Definition match_exp (s : string) : string * string :=
  match s with
  | String c r =>
      if ((code c =? 101) || (code c =? 69))%N then
        let '(sg, r') :=
          match r with
          | String g r' =>
              if ((code g =? 43) || (code g =? 45))%N
              then (String g EmptyString, r') else (EmptyString, r)
          | EmptyString => (EmptyString, r)
          end in
        match span_digits r' with
        | (EmptyString, _) => (EmptyString, s)
        | (d, rest) => (String c (sg ++ d), rest)
        end
      else (EmptyString, s)
  | EmptyString => (EmptyString, s)
  end.

Definition int_value (lexeme : string) : Z :=
  match lexeme with
  | String c r => if (code c =? 45)%N then - digits_value 0 r
                  else digits_value 0 lexeme
  | EmptyString => 0
  end.

Definition match_number (s : string) : option (value * string) :=
  match match_int s with
  | None => None
  | Some (i, r1) =>
      let '(f, r2) := match_frac r1 in
      let '(e, r3) := match_exp r2 in
      match f, e with
      | EmptyString, EmptyString => Some (JInt (int_value i), r3)
      | _, _ => Some (JFloat (i ++ f ++ e), r3)
      end
  end.

Definition keyword (k : string) (v : value) (s : string)
  : option (value * string) :=
  if PyStr.startswith k s then Some (v, PyStr.drop (PyStr.len k) s) else None.

Definition first_of {A} (a b : option A) : option A :=
  match a with Some _ => a | None => b end.

(** A [dict] built from the members in source order: a repeated key keeps
    its first position and takes the last value. *)
Fixpoint dict_set (k : string) (v : value) (d : list (string * value))
  : list (string * value) :=
  match d with
  | [] => [(k, v)]
  | (k', v') :: d' =>
      if String.eqb k' k then (k', v) :: d' else (k', v') :: dict_set k v d'
  end.

Definition dict_of (pairs : list (string * value)) : list (string * value) :=
  fold_left (fun d kv => dict_set (fst kv) (snd kv) d) pairs [].

(** [scan_once] with the object and array decoders; [fuel] bounds the
    nesting and the number of members. *)
Fixpoint scan_once (fuel : nat) (s : string) : option (value * string) :=
  match fuel with
  | O => None
  | S fuel' =>
      match s with
      | EmptyString => None
      | String c r =>
          let n := code c in
          if (n =? 34)%N then
            match scanstring r with
            | Some (t, rest) => Some (JString t, rest)
            | None => None
            end
          else if (n =? 123)%N then
            match skip_ws r with
            | String d r' =>
                if (code d =? 125)%N then Some (JObject [], r')
                else
                  match scan_members fuel' (skip_ws r) with
                  | Some (ms, rest) => Some (JObject (dict_of ms), rest)
                  | None => None
                  end
            | EmptyString => None
            end
          else if (n =? 91)%N then
            match skip_ws r with
            | String d r' =>
                if (code d =? 93)%N then Some (JArray [], r')
                else
                  match scan_items fuel' (skip_ws r) with
                  | Some (vs, rest) => Some (JArray vs, rest)
                  | None => None
                  end
            | EmptyString => None
            end
          else
            first_of (keyword "null" JNull s)
           (first_of (keyword "true" (JBool true) s)
           (first_of (keyword "false" (JBool false) s)
           (first_of (match_number s)
           (first_of (keyword "NaN" (JFloat "NaN") s)
           (first_of (keyword "Infinity" (JFloat "Infinity") s)
                     (keyword "-Infinity" (JFloat "-Infinity") s))))))
      end
  end

(** The members of an object, from the opening quote of the next key. *)
with scan_members (fuel : nat) (s : string)
  : option (list (string * value) * string) :=
  match fuel with
  | O => None
  | S fuel' =>
      match s with
      | String q r =>
          if (code q =? 34)%N then
            match scanstring r with
            | Some (key, r1) =>
                match skip_ws r1 with
                | String colon r2 =>
                    if (code colon =? 58)%N then
                      match scan_once fuel' (skip_ws r2) with
                      | Some (v, r3) =>
                          match skip_ws r3 with
                          | String d r4 =>
                              if (code d =? 125)%N then Some ([(key, v)], r4)
                              else if (code d =? 44)%N then
                                match scan_members fuel' (skip_ws r4) with
                                | Some (ms, rest) => Some ((key, v) :: ms, rest)
                                | None => None
                                end
                              else None
                          | EmptyString => None
                          end
                      | None => None
                      end
                    else None
                | EmptyString => None
                end
            | None => None
            end
          else None
      | EmptyString => None
      end
  end

(** The items of an array, from the first character of the next item. *)
with scan_items (fuel : nat) (s : string) : option (list value * string) :=
  match fuel with
  | O => None
  | S fuel' =>
      match scan_once fuel' s with
      | Some (v, r1) =>
          match skip_ws r1 with
          | String d r2 =>
              if (code d =? 93)%N then Some ([v], r2)
              else if (code d =? 44)%N then
                match scan_items fuel' (skip_ws r2) with
                | Some (vs, rest) => Some (v :: vs, rest)
                | None => None
                end
              else None
          | EmptyString => None
          end
      | None => None
      end
  end.

(** [json.loads(s)]: one value between optional white space and nothing
    else; [None] stands for the exception the decoder raises. *)
Definition loads (s : string) : option value :=
  match scan_once (2 * PyStr.len s + 2) (skip_ws s) with
  | Some (v, rest) =>
      match skip_ws rest with
      | EmptyString => Some v
      | String _ _ => None
      end
  | None => None
  end.

(** ** A model of [json.dump(v, f, ensure_ascii=False, indent=2)]

    The text written for [v].  A float is written with its source text
    (Python writes [repr] of the float). *)

Definition quote_ch : ascii := ascii_of_N 34.
Definition backslash : ascii := ascii_of_N 92.
Definition newline : string := String (ascii_of_N 10) EmptyString.

Definition hex_digit (n : N) : ascii :=
  match String.get (N.to_nat n) "0123456789abcdef" with
  | Some c => c
  | None => "0"%char
  end.

Definition escape_ch (c : ascii) : string :=
  let n := code c in
  let esc (x : ascii) := String backslash (String x EmptyString) in
  if (n =? 34)%N then esc quote_ch
  else if (n =? 92)%N then esc backslash
  else if (n =? 10)%N then esc "n"%char
  else if (n =? 13)%N then esc "r"%char
  else if (n =? 9)%N then esc "t"%char
  else if (n =? 8)%N then esc "b"%char
  else if (n =? 12)%N then esc "f"%char
  else if (n <? 32)%N then
    String backslash
      (String "u"%char (String "0"%char (String "0"%char
         (String (hex_digit (n / 16)) (String (hex_digit (n mod 16)) EmptyString)))))
  else String c EmptyString.

Fixpoint escape (s : string) : string :=
  match s with
  | String c s' => (escape_ch c ++ escape s')%string
  | EmptyString => EmptyString
  end.

Definition quoted (s : string) : string :=
  String quote_ch (escape s ++ String quote_ch EmptyString).

Fixpoint indent (level : nat) : string :=
  match level with
  | O => EmptyString
  | S l => ("  " ++ indent l)%string
  end.

Fixpoint join (sep : string) (xs : list string) : string :=
  match xs with
  | [] => EmptyString
  | [x] => x
  | x :: xs' => (x ++ sep ++ join sep xs')%string
  end.

Definition bracket (l r : string) (level : nat) (items : list string) : string :=
  match items with
  | [] => (l ++ r)%string
  | _ =>
      (l ++ newline ++ indent (S level)
         ++ join ("," ++ newline ++ indent (S level)) items
         ++ newline ++ indent level ++ r)%string
  end.

Fixpoint dumps_at (level : nat) (v : value) : string :=
  match v with
  | JNull => "null"
  | JBool true => "true"
  | JBool false => "false"
  | JInt n => NilZero.string_of_int (Z.to_int n)
  | JFloat x => x
  | JString s => quoted s
  | JArray vs => bracket "[" "]" level (map (dumps_at (S level)) vs)
  | JObject ms =>
      bracket "{" "}" level
        (map (fun kv => (quoted (fst kv) ++ ": " ++ dumps_at (S level) (snd kv))%string) ms)
  end.

Definition dumps (v : value) : string := dumps_at 0 v.

(** A writing aid for examples: every apostrophe becomes a double
    quote, so that a JSON text can be written as one literal. *)
Fixpoint dq (s : string) : string :=
  match s with
  | String c s' =>
      String (if (code c =? 39)%N then ascii_of_N 34 else c) (dq s')
  | EmptyString => EmptyString
  end.

Example loads_object :
  loads (dq "{'a': [1, 2.5, true, null], 'b': {'c': 'x\n'}} ")
  = Some (JObject [("a"%string, JArray [JInt 1; JFloat "2.5"; JBool true; JNull]);
                   ("b"%string, JObject [("c"%string, JString (String "x" (String "010" EmptyString)))])]).
Proof. vm_compute. reflexivity. Qed.

Example loads_repeated_key :
  loads (dq "{'a': 1, 'b': 2, 'a': 3}")
  = Some (JObject [("a"%string, JInt 3); ("b"%string, JInt 2)]).
Proof. vm_compute. reflexivity. Qed.

Example dumps_object :
  dumps (JObject [("a"%string, JArray [JInt 1; JNull]); ("b"%string, JObject [])])
  = dq "{
  'a': [
    1,
    null
  ],
  'b': {}
}".
Proof. vm_compute. reflexivity. Qed.

Example loads_null : loads "null" = Some JNull.
Proof. vm_compute. reflexivity. Qed.

Example loads_prose : loads "Here is the result: {}" = None.
Proof. vm_compute. reflexivity. Qed.

Example loads_truncated : loads (dq "{'summary': {'overall_comment': 'Go") = None.
Proof. vm_compute. reflexivity. Qed.

Example loads_trailing_comma : loads (dq "{'a': 1,}") = None.
Proof. vm_compute. reflexivity. Qed.

Example loads_leading_zero : loads "012" = None.
Proof. vm_compute. reflexivity. Qed.

Example loads_surrogates :
  loads (dq "'\ud83d\ude00'")
  = Some (JString (String (ascii_of_N 240) (String (ascii_of_N 159)
            (String (ascii_of_N 152) (String (ascii_of_N 128) EmptyString))))).
Proof. vm_compute. reflexivity. Qed.

End Json.

(* ===================================================================== *)
(** * The pattern of the fenced-code fallback                             *)
(* ===================================================================== *)

(** [re.search(pattern, text, re.DOTALL | re.IGNORECASE)] for the one
  pattern the tool uses: three back quotes, an optional [json], white
  space, a group that starts with an opening brace and lazily extends to
  a closing brace, white space, three back quotes. *)

Module Fence.

Import PyStr.

Definition code (c : ascii) : N := N_of_ascii c.

(** One-byte white space of [\s]: tab to carriage return, the four
    separators 28 to 31, and the space. *)
Definition space1 (a : ascii) : bool :=
  let n := code a in
  (((9 <=? n) && (n <=? 13)) || ((28 <=? n) && (n <=? 31)) || (n =? 32))%N.

(** Two-byte white space: U+0085 and U+00A0. *)
Definition space2 (a b : ascii) : bool :=
  ((code a =? 194) && ((code b =? 133) || (code b =? 160)))%N.

(** Three-byte white space: U+1680, U+2000 to U+200A, U+2028, U+2029,
    U+202F, U+205F and U+3000. *)
Definition space3 (a b c : ascii) : bool :=
  let '(x, y, z) := (code a, code b, code c) in
  (((x =? 225) && (y =? 154) && (z =? 128))
   || ((x =? 226) && (y =? 128)
       && (((128 <=? z) && (z <=? 138)) || (z =? 168) || (z =? 169) || (z =? 175)))
   || ((x =? 226) && (y =? 129) && (z =? 159))
   || ((x =? 227) && (y =? 128) && (z =? 128)))%N.

(** [\s*] before a character that is not white space. *)
Fixpoint skip_space (s : string) : string :=
  match s with
  | String a r1 =>
      if space1 a then skip_space r1
      else
        match r1 with
        | String b r2 =>
            if space2 a b then skip_space r2
            else
              match r2 with
              | String c r3 => if space3 a b c then skip_space r3 else s
              | EmptyString => s
              end
        | EmptyString => s
        end
  | EmptyString => s
  end.

(** One ASCII letter, in either case. *)
Definition eat_letter (l : ascii) (s : string) : option string :=
  match s with
  | String c r => if ch_eqb (lower_ch c) l then Some r else None
  | EmptyString => None
  end.

(** The letter s under [re.IGNORECASE] also matches U+017F, the long s. *)
Definition eat_s (s : string) : option string :=
  match eat_letter "s" s with
  | Some r => Some r
  | None =>
      match s with
      | String a (String b r) =>
          if ((code a =? 197) && (code b =? 191))%N then Some r else None
      | _ => None
      end
  end.

(** [(?:json)?]: taken when it is there. *)
Definition skip_json (s : string) : string :=
  match eat_letter "j" s with
  | Some r1 =>
      match eat_s r1 with
      | Some r2 =>
          match eat_letter "o" r2 with
          | Some r3 =>
              match eat_letter "n" r3 with
              | Some r4 => r4
              | None => s
              end
          | None => s
          end
      | None => s
      end
  | None => s
  end.

Definition fence : string := "```".

(** The rest of the group after its opening brace: the shortest text
    ending in a closing brace that white space and a fence follow. *)
Fixpoint lazy_body (s : string) : option string :=
  match s with
  | EmptyString => None
  | String c r =>
      if ch_eqb c "}" && startswith fence (skip_space r)
      then Some (String c EmptyString)
      else match lazy_body r with
           | Some b => Some (String c b)
           | None => None
           end
  end.

(** A match that starts at the head of [s]; the result is group 1. *)
Definition match_here (s : string) : option string :=
  if startswith fence s then
    match skip_space (skip_json (drop 3 s)) with
    | String c body =>
        if ch_eqb c "{" then
          match lazy_body body with
          | Some b => Some (String c b)
          | None => None
          end
        else None
    | EmptyString => None
    end
  else None.

(** The leftmost match. *)
Fixpoint search (s : string) : option string :=
  match match_here s with
  | Some g => Some g
  | None =>
      match s with
      | String _ r => search r
      | EmptyString => None
      end
  end.

Example search_plain : search "```{}```" = Some "{}"%string.
Proof. vm_compute. reflexivity. Qed.

Example search_json_tag :
  search (Json.dq "Sure! ```JSON
{'a': {'b': 1}}
``` done") = Some (Json.dq "{'a': {'b': 1}}").
Proof. vm_compute. reflexivity. Qed.

Example search_lazy : search "```{a} x}``` ```{b}```" = Some "{a} x}"%string.
Proof. vm_compute. reflexivity. Qed.

Example search_no_brace : search "```json [1, 2]```" = None.
Proof. vm_compute. reflexivity. Qed.

End Fence.

(* ===================================================================== *)
(** * audio_analysis_smoke.py: JSON recovery                              *)
(* ===================================================================== *)

Module Smoke.

Import PyStr.
Export Json.

(** The exceptions the helpers raise. *)
Inductive exn : Type :=
| JSONDecodeError (doc : string)     (* raised by [json.loads(doc)] *)
| ValueError (msg : string)
| IsADirectoryError (path : string)
| ClientError.                       (* whatever the API client raises *)

(** The outcome of a call that may raise. *)
Inductive result (A : Type) : Type :=
| Return (a : A)
| Raise (e : exn).
Arguments Return {A} a.
Arguments Raise {A} e.

(** The [for i in range(start, len(s))] loop of [_balanced_json_block],
    run on [rest = s[i:]] with the current [depth]; the result is the
    index [i] at which the loop returns, [None] when it runs to the end. *)
Fixpoint block_end (rest : string) (i : nat) (depth : Z) : option nat :=
  match rest with
  | EmptyString => None
  | String c rest' =>
      if ch_eqb c "{" then block_end rest' (S i) (depth + 1)
      else if ch_eqb c "}" then
        let depth' := depth - 1 in
        if depth' =? 0 then Some i else block_end rest' (S i) depth'
      else block_end rest' (S i) depth
  end.

Definition _balanced_json_block (s : string) : option string :=
  match find "{" s with
  | None => None
  | Some start =>
      match block_end (drop start s) start 0 with
      | Some i => Some (slice start (i + 1) s)
      | None => None
      end
  end.

Example block_prose :
  _balanced_json_block "Result: {a{b}c} and {d}" = Some "{a{b}c}"%string.
Proof. vm_compute. reflexivity. Qed.

Example block_open : _balanced_json_block "x { { } y" = None.
Proof. vm_compute. reflexivity. Qed.

Example block_leading_close : _balanced_json_block "} {}" = Some "{}"%string.
Proof. vm_compute. reflexivity. Qed.

(** What [parse_json_or_raise] tries, in order. *)
Inductive attempt : Type :=
| TryDirect                       (* [json.loads(text)] *)
| TryBlock (block : string)       (* [json.loads(block)] *)
| TryFenced (m : option string).  (* [re.search], then [json.loads(m.group(1))] *)

Section Parse.

(** [json.loads]; [None] when it raises. *)
Variable loads : string -> option value.

Definition loads_or_raise (doc : string) : result value :=
  match loads doc with
  | Some v => Return v
  | None => Raise (JSONDecodeError doc)
  end.

(** [parse_json_or_raise] together with the list of its attempts. *)
Definition parse_json_steps (text : string) : list attempt * result value :=
  match loads text with
  | Some v => ([TryDirect], Return v)
  | None =>
      let block := _balanced_json_block text in
      match block with
      | Some (String _ _ as b) =>
          ([TryDirect; TryBlock b], loads_or_raise b)
      | _ =>
          let m := Fence.search text in
          ([TryDirect; TryFenced m],
           match m with
           | Some g => loads_or_raise g
           | None =>
               Raise (ValueError "Could not parse JSON from model output.")
           end)
      end
  end.

Definition parse_json_or_raise (text : string) : result value :=
  snd (parse_json_steps text).

Definition attempts (text : string) : list attempt :=
  fst (parse_json_steps text).

End Parse.

Example parse_direct :
  parse_json_or_raise loads (dq "{'scores': {}}")
  = Return (JObject [("scores"%string, JObject [])]).
Proof. vm_compute. reflexivity. Qed.

Example parse_prose :
  parse_json_or_raise loads (dq "Here you go: {'scores': {}} Enjoy.")
  = Return (JObject [("scores"%string, JObject [])]).
Proof. vm_compute. reflexivity. Qed.

Example parse_fenced_brace_in_string :
  parse_json_or_raise loads (dq "```json {'a': '{'} ```")
  = Return (JObject [("a"%string, JString "{")]).
Proof. vm_compute. reflexivity. Qed.

Example parse_nothing :
  parse_json_or_raise loads "I cannot rate this."
  = Raise (ValueError "Could not parse JSON from model output.").
Proof. vm_compute. reflexivity. Qed.

(** ** The brace scanner *)

Definition opens (s : string) : Z := Z.of_nat (count "{" s).
Definition closes (s : string) : Z := Z.of_nat (count "}" s).

Lemma opens_cons c s :
  opens (String c s) = (if ch_eqb c "{" then 1 else 0) + opens s.
Proof. unfold opens. simpl. destruct (ch_eqb c "{"); lia. Qed.

Lemma closes_cons c s :
  closes (String c s) = (if ch_eqb c "}" then 1 else 0) + closes s.
Proof. unfold closes. simpl. destruct (ch_eqb c "}"); lia. Qed.

Lemma brace_distinct c : ch_eqb c "{" = true -> ch_eqb c "}" = false.
Proof.
  intros H. apply ch_eqb_eq in H. subst c. reflexivity.
Qed.

(** While the loop runs the depth stays positive; where it returns, the
    character is a closing brace and the depth has come back to zero. *)
Lemma block_end_some rest :
  forall i d j,
    1 <= d ->
    block_end rest i d = Some j ->
    exists m, j = (i + m)%nat /\ String.get m rest = Some "}"%char /\
      d + opens (take (S m) rest) - closes (take (S m) rest) = 0 /\
      forall k, (k <= m)%nat -> 1 <= d + opens (take k rest) - closes (take k rest).
Proof.
  induction rest as [|c rest IH]; intros i d j Hd H; simpl in H; [discriminate|].
  destruct (ch_eqb c "{") eqn:Eo.
  - destruct (IH (S i) (d + 1) j ltac:(lia) H) as (m & -> & Hg & Hz & Hk).
    exists (S m). pose proof (brace_distinct c Eo) as Ec.
    split; [lia|]. split; [exact Hg|]. split.
    + change (take (S (S m)) (String c rest)) with (String c (take (S m) rest)).
      rewrite opens_cons, closes_cons, Eo, Ec. lia.
    + intros [|k] Hle.
      * rewrite take_0. unfold opens, closes; simpl. lia.
      * change (take (S k) (String c rest)) with (String c (take k rest)).
        rewrite opens_cons, closes_cons, Eo, Ec.
        specialize (Hk k ltac:(lia)). lia.
  - destruct (ch_eqb c "}") eqn:Ec.
    + destruct (d - 1 =? 0) eqn:Ez.
      * apply Z.eqb_eq in Ez. inversion H; subst j. exists O.
        split; [lia|]. split.
        { simpl. apply ch_eqb_eq in Ec. subst c. reflexivity. }
        split.
        { change (take 1 (String c rest)) with (String c (take 0 rest)).
          rewrite opens_cons, closes_cons, Eo, Ec, take_0.
          unfold opens, closes; simpl. lia. }
        intros k Hle. assert (k = O) by lia. subst k. rewrite take_0.
        unfold opens, closes; simpl. lia.
      * apply Z.eqb_neq in Ez.
        destruct (IH (S i) (d - 1) j ltac:(lia) H) as (m & -> & Hg & Hz & Hk).
        exists (S m). split; [lia|]. split; [exact Hg|]. split.
        { change (take (S (S m)) (String c rest)) with (String c (take (S m) rest)).
          rewrite opens_cons, closes_cons, Eo, Ec. lia. }
        intros [|k] Hle.
        { rewrite take_0. unfold opens, closes; simpl. lia. }
        change (take (S k) (String c rest)) with (String c (take k rest)).
        rewrite opens_cons, closes_cons, Eo, Ec.
        specialize (Hk k ltac:(lia)). lia.
    + destruct (IH (S i) d j Hd H) as (m & -> & Hg & Hz & Hk).
      exists (S m). split; [lia|]. split; [exact Hg|]. split.
      { change (take (S (S m)) (String c rest)) with (String c (take (S m) rest)).
        rewrite opens_cons, closes_cons, Eo, Ec. lia. }
      intros [|k] Hle.
      { rewrite take_0. unfold opens, closes; simpl. lia. }
      change (take (S k) (String c rest)) with (String c (take k rest)).
      rewrite opens_cons, closes_cons, Eo, Ec.
      specialize (Hk k ltac:(lia)). lia.
Qed.

(** When the loop runs to the end, no prefix brings the depth to zero. *)
Lemma block_end_none rest :
  forall i d,
    1 <= d ->
    block_end rest i d = None ->
    forall k, 1 <= d + opens (take k rest) - closes (take k rest).
Proof.
  induction rest as [|c rest IH]; intros i d Hd H k.
  - destruct k; unfold opens, closes; simpl; lia.
  - simpl in H. destruct k as [|k].
    { rewrite take_0. unfold opens, closes; simpl. lia. }
    change (take (S k) (String c rest)) with (String c (take k rest)).
    rewrite opens_cons, closes_cons.
    destruct (ch_eqb c "{") eqn:Eo.
    + rewrite (brace_distinct c Eo).
      specialize (IH (S i) (d + 1) ltac:(lia) H k). lia.
    + destruct (ch_eqb c "}") eqn:Ec.
      * destruct (d - 1 =? 0) eqn:Ez; [discriminate|].
        apply Z.eqb_neq in Ez.
        specialize (IH (S i) (d - 1) ltac:(lia) H k). lia.
      * specialize (IH (S i) d Hd H k). lia.
Qed.

Lemma count_open_head t : count "{" (String "{" t) = S (count "{" t).
Proof. reflexivity. Qed.

Lemma count_close_head t : count "}" (String "{" t) = count "}" t.
Proof. reflexivity. Qed.

Lemma get_lt_len m s c : String.get m s = Some c -> (m < len s)%nat.
Proof.
  revert s. induction m as [|m IH]; intros [|d s] H; simpl in *;
    try discriminate; unfold len in *; simpl; [lia|].
  specialize (IH s H). lia.
Qed.

(** The scanner unfolded at the first opening brace. *)
Lemma balanced_json_block_unfold s start rest :
  find "{" s = Some start ->
  drop start s = String "{" rest ->
  _balanced_json_block s =
    match block_end rest (S start) 1 with
    | Some j => Some (String "{" (take (j - start) rest))
    | None => None
    end.
Proof.
  intros Hf Hd. unfold _balanced_json_block. rewrite Hf, Hd. simpl.
  change (0 + 1) with 1.
  destruct (block_end rest (S start) 1) as [j|] eqn:E; [|reflexivity].
  unfold slice. rewrite Hd.
  destruct (block_end_some rest (S start) 1 j ltac:(lia) E) as (m & -> & _).
  replace (S start + m + 1 - start)%nat with (S (S m)) by lia.
  replace (S start + m - start)%nat with (S m) by lia.
  reflexivity.
Qed.

(** C9.  For every string [s], [_balanced_json_block s] is [None] when [s]
    has no opening brace, and when no non-empty prefix of the text from
    the first opening brace has as many closing as opening braces.  When
    it returns a block, the block is a prefix of the text from the first
    opening brace of [s], it starts with an opening and ends with a
    closing brace, it has equally many of both, and each of its non-empty
    proper prefixes has strictly more opening than closing braces. *)
Theorem balanced_json_block_spec (s : string) :
  ((forall i, String.get i s <> Some "{"%char) ->
   _balanced_json_block s = None)
  /\ (forall start,
        find "{" s = Some start ->
        (forall n, (0 < n)%nat ->
           count "{" (take n (drop start s)) <> count "}" (take n (drop start s))) ->
        _balanced_json_block s = None)
  /\ (forall b,
        _balanced_json_block s = Some b ->
        exists start tail,
          find "{" s = Some start /\
          drop start s = (b ++ tail)%string /\
          String.get 0 b = Some "{"%char /\
          last b = Some "}"%char /\
          count "{" b = count "}" b /\
          forall k, (0 < k < len b)%nat ->
            (count "}" (take k b) < count "{" (take k b))%nat).
Proof.
  split; [|split].
  - intros H. apply find_none_get in H.
    unfold _balanced_json_block. rewrite H. reflexivity.
  - intros start Hf Hn.
    destruct (find_some _ _ _ Hf) as [_ [rest Hd]].
    rewrite (balanced_json_block_unfold s start rest Hf Hd).
    destruct (block_end rest (S start) 1) as [j|] eqn:E; [|reflexivity].
    exfalso.
    destruct (block_end_some rest (S start) 1 j ltac:(lia) E)
      as (m & -> & _ & Hz & _).
    apply (Hn (S (S m)) ltac:(lia)). rewrite Hd.
    change (take (S (S m)) (String "{" rest))
      with (String "{"%char (take (S m) rest)).
    unfold opens, closes in Hz. rewrite count_open_head, count_close_head. lia.
  - intros b Hb. unfold _balanced_json_block in Hb.
    destruct (find "{" s) as [start|] eqn:Hf; [|discriminate].
    fold (_balanced_json_block s) in Hb.
    destruct (find_some _ _ _ Hf) as [_ [rest Hd]].
    assert (Hb' : _balanced_json_block s = Some b).
    { unfold _balanced_json_block. rewrite Hf. exact Hb. }
    rewrite (balanced_json_block_unfold s start rest Hf Hd) in Hb'.
    destruct (block_end rest (S start) 1) as [j|] eqn:E; [|discriminate].
    destruct (block_end_some rest (S start) 1 j ltac:(lia) E)
      as (m & -> & Hg & Hz & Hk).
    replace (S start + m - start)%nat with (S m) in Hb' by lia.
    assert (Hbeq : b = String "{" (take (S m) rest)) by congruence.
    clear Hb Hb'. subst b.
    exists start, (drop (S m) rest).
    split; [reflexivity|]. split.
    { rewrite Hd, app_cons, take_drop. reflexivity. }
    split; [reflexivity|]. split.
    { rewrite (take_S_get m rest _ Hg).
      rewrite <- app_cons. apply last_app_single. }
    split.
    { unfold opens, closes in Hz. rewrite count_open_head, count_close_head. lia. }
    intros k [Hk0 Hk1].
    assert (Hlen : len (String "{" (take (S m) rest)) = S (S m)).
    { pose proof (len_take (S m) rest) as Ht.
      pose proof (get_lt_len _ _ _ Hg) as Hm.
      change (len (String "{" (take (S m) rest)))
        with (S (len (take (S m) rest))).
      lia. }
    rewrite Hlen in Hk1.
    destruct k as [|k]; [lia|].
    change (take (S k) (String "{" (take (S m) rest)))
      with (String "{"%char (take k (take (S m) rest))).
    rewrite take_take by lia.
    specialize (Hk k ltac:(lia)). unfold opens, closes in Hk.
    rewrite count_open_head, count_close_head. lia.
Qed.

(** The scanner on a reply wrapped in prose, next to the properties C9
    gives for it. *)
Lemma balanced_json_block_spec_witness :
  _balanced_json_block "ok {a{b}} {c}" = Some "{a{b}}"%string
  /\ exists start tail,
       find "{" "ok {a{b}} {c}" = Some start /\
       drop start "ok {a{b}} {c}" = ("{a{b}}" ++ tail)%string /\
       String.get 0 "{a{b}}" = Some "{"%char /\
       last "{a{b}}" = Some "}"%char /\
       count "{" "{a{b}}" = count "}" "{a{b}}" /\
       forall k, (0 < k < len "{a{b}}")%nat ->
         (count "}" (take k "{a{b}}") < count "{" (take k "{a{b}}"))%nat.
Proof.
  split; [reflexivity|].
  apply (proj2 (proj2 (balanced_json_block_spec "ok {a{b}} {c}"))).
  reflexivity.
Defined.

(** ** The order of the recovery strategies *)

(** A block the scanner returns is never the empty string, so the test
    [if block:] only asks whether a block was found. *)
Lemma balanced_json_block_nonempty s b :
  _balanced_json_block s = Some b -> truthy b = true.
Proof.
  intros H. unfold _balanced_json_block in H.
  destruct (find "{" s) as [start|] eqn:Hf; [|discriminate].
  destruct (find_some _ _ _ Hf) as [_ [rest Hd]].
  assert (H' : _balanced_json_block s = Some b).
  { unfold _balanced_json_block. rewrite Hf. exact H. }
  rewrite (balanced_json_block_unfold s start rest Hf Hd) in H'.
  destruct (block_end rest (S start) 1); [|discriminate].
  assert (b = String "{" (take (n - start) rest)) by congruence.
  subst b. reflexivity.
Qed.

Lemma parse_json_steps_block loads text b :
  loads text = None ->
  _balanced_json_block text = Some b ->
  parse_json_steps loads text = ([TryDirect; TryBlock b], loads_or_raise loads b).
Proof.
  intros Hl Hb. unfold parse_json_steps. rewrite Hl, Hb.
  pose proof (balanced_json_block_nonempty _ _ Hb) as Ht.
  destruct b; [discriminate | reflexivity].
Qed.

(** C8.  When the text is not valid JSON and the scanner finds a block
    that is not valid JSON either, [parse_json_or_raise] raises the
    decoding error of that block, and its attempts are the direct one and
    the block: the fenced-code search is not made.  The fenced-code search
    is among the attempts only when the scanner finds no block. *)
Theorem parse_json_invalid_block
    (loads : string -> option value) (text : string) :
  (forall block,
      loads text = None ->
      _balanced_json_block text = Some block ->
      loads block = None ->
      parse_json_or_raise loads text = Raise (JSONDecodeError block)
      /\ attempts loads text = [TryDirect; TryBlock block])
  /\ (forall m,
        In (TryFenced m) (attempts loads text) ->
        _balanced_json_block text = None).
Proof.
  split.
  - intros block Hl Hb Hlb.
    unfold parse_json_or_raise, attempts.
    rewrite (parse_json_steps_block loads text block Hl Hb). simpl.
    unfold loads_or_raise. rewrite Hlb. split; reflexivity.
  - intros m Hin. unfold attempts in Hin.
    destruct (_balanced_json_block text) as [b|] eqn:Hb; [|reflexivity].
    exfalso. destruct (loads text) as [v|] eqn:Hl.
    + unfold parse_json_steps in Hin. rewrite Hl in Hin. simpl in Hin.
      destruct Hin as [Hin|[]]. discriminate.
    + rewrite (parse_json_steps_block loads text b Hl Hb) in Hin.
      simpl in Hin. destruct Hin as [Hin|[Hin|[]]]; discriminate.
Qed.

(** C8 on a reply whose first block is not JSON. *)
Lemma parse_json_invalid_block_witness :
  loads "{see below} {}" = None
  /\ _balanced_json_block "{see below} {}" = Some "{see below}"%string
  /\ loads "{see below}" = None
  /\ parse_json_or_raise loads "{see below} {}"
     = Raise (JSONDecodeError "{see below}")
  /\ attempts loads "{see below} {}" = [TryDirect; TryBlock "{see below}"].
Proof.
  assert (H1 : loads "{see below} {}" = None) by (vm_compute; reflexivity).
  assert (H2 : _balanced_json_block "{see below} {}" = Some "{see below}"%string)
    by (vm_compute; reflexivity).
  assert (H3 : loads "{see below}" = None) by (vm_compute; reflexivity).
  split; [exact H1|]. split; [exact H2|]. split; [exact H3|].
  exact (proj1 (parse_json_invalid_block loads "{see below} {}")
           "{see below}"%string H1 H2 H3).
Defined.

(** C3, at a reply where the third strategy would succeed: the text is
    not JSON, its first balanced block is not JSON, and its fenced block
    is; [parse_json_or_raise] raises the decoding error of the balanced
    block. *)
Lemma parse_json_raises_despite_fence :
  let text := dq "Scores {see below} ```json {'scores': {}} ```" in
  loads text = None
  /\ _balanced_json_block text = Some "{see below}"%string
  /\ loads "{see below}" = None
  /\ Fence.search text = Some (dq "{'scores': {}}")
  /\ loads (dq "{'scores': {}}") = Some (JObject [("scores"%string, JObject [])])
  /\ parse_json_or_raise loads text = Raise (JSONDecodeError "{see below}").
Proof. vm_compute. repeat split; reflexivity. Qed.

(* ===================================================================== *)
(** * audio_analysis_smoke.py: files, clock and the remote model          *)
(* ===================================================================== *)

(** ** [pathlib] and [base64] *)

(** [s.split(c)] for a one-character separator. *)
Fixpoint split (c : ascii) (s : string) : list string :=
  match s with
  | EmptyString => [EmptyString]
  | String d r =>
      if ch_eqb d c then EmptyString :: split c r
      else match split c r with
           | h :: t => String d h :: t
           | [] => [String d EmptyString]
           end
  end.

(** The name components of a POSIX path: empty components and single
    dots are dropped. *)
Definition components (path : string) : list string :=
  List.filter (fun p => negb (String.eqb p EmptyString || String.eqb p "."))
    (split "/" path).

(** [Path(path).name] *)
Definition path_name (path : string) : string :=
  List.last (components path) EmptyString.

(** [PurePath.suffix] of a name: the text from the last dot on, unless the
    dot is the first or the last character. *)
Definition name_suffix (name : string) : string :=
  match rfind "." name with
  | Some i =>
      if ((0 <? i) && (i <? len name - 1))%nat then drop i name else EmptyString
  | None => EmptyString
  end.

(** [Path(path).suffix] *)
Definition path_suffix (path : string) : string := name_suffix (path_name path).

(** [Path(path).resolve()] as text, without symbolic links or dot-dot. *)
Definition resolve (cwd path : string) : string :=
  if startswith "/" path then path else (cwd ++ "/" ++ path)%string.

Definition alphabet : string :=
  "ABCDEFGHIJKLMNOPQRSTUVWXYZabcdefghijklmnopqrstuvwxyz0123456789+/".

Definition sextet (n : N) : ascii :=
  match String.get (N.to_nat (n mod 64)) alphabet with
  | Some c => c
  | None => "="%char
  end.

(** [base64.b64encode(data).decode("utf-8")] *)
Fixpoint b64encode (data : string) : string :=
  match data with
  | EmptyString => EmptyString
  | String a EmptyString =>
      let x := code a in
      String (sextet (x / 4)) (String (sextet ((x mod 4) * 16)) "==")
  | String a (String b EmptyString) =>
      let '(x, y) := (code a, code b) in
      String (sextet (x / 4))
        (String (sextet ((x mod 4) * 16 + y / 16))
           (String (sextet ((y mod 16) * 4)) "="))
  | String a (String b (String c rest)) =>
      let '(x, y, z) := (code a, code b, code c) in
      String (sextet (x / 4))
        (String (sextet ((x mod 4) * 16 + y / 16))
           (String (sextet ((y mod 16) * 4 + z / 64))
              (String (sextet (z mod 64)) (b64encode rest))))
  end.

Example b64_three : b64encode "Man" = "TWFu"%string.
Proof. vm_compute. reflexivity. Qed.

Example b64_two : b64encode "Ma" = "TWE="%string.
Proof. vm_compute. reflexivity. Qed.

Example b64_one : b64encode "M" = "TQ=="%string.
Proof. vm_compute. reflexivity. Qed.

Example b64_riff : b64encode "RIFF$" = "UklGRiQ="%string.
Proof. vm_compute. reflexivity. Qed.

Example suffix_upper : path_suffix "takes/Scene 1.WAV" = ".WAV"%string.
Proof. vm_compute. reflexivity. Qed.

Example suffix_hidden : path_suffix "takes/.wav" = EmptyString.
Proof. vm_compute. reflexivity. Qed.

Example suffix_trailing_slash : path_suffix "a.b/c.tar.mp3/" = ".mp3"%string.
Proof. vm_compute. reflexivity. Qed.

(** ** The world *)

Inductive node : Type :=
| Dir
| File (data : string).

(** A [datetime]. *)
Record datetime : Type := mk_datetime {
  year : nat; month : nat; day : nat;
  hour : nat; minute : nat; second : nat
}.

(** A request to the remote model: [call_model] and
    [continue_if_truncated] differ in the extra user message that carries
    the partial text. *)
Inductive request : Type :=
| Primary (fmt b64 : string) (max_tokens : Z)
| Continuation (fmt b64 partial_text : string) (max_tokens : Z).

(** A reply: [finish_reason] is [getattr(resp.choices[0], "finish_reason", "")]
    and [reply_text] is what [extract_text_from_response] returns. *)
Record response : Type := mk_response {
  finish_reason : string;
  reply_text : string
}.

(** What the program cannot control. *)
Record env : Type := mk_env {
  api_key : option string;            (* [os.getenv("OPENAI_API_KEY")] *)
  argv : list string;                 (* [sys.argv] *)
  cwd : string;
  clock : nat -> datetime;            (* the n-th reading of [datetime.now()] *)
  model : request -> option response  (* [None]: the client raises *)
}.

(** What the program changes. *)
Record world : Type := mk_world {
  fs : gmap string node;
  stdout : list string;               (* one entry per [print] *)
  requests : list request;            (* the calls made, in order *)
  ticks : nat                         (* readings of the clock so far *)
}.

Inductive exit_arg : Type :=
| ExitMsg (msg : string)              (* [sys.exit(msg)] *)
| ExitCode (n : Z).                   (* [sys.exit(n)] *)

Inductive halt : Type :=
| SysExit (a : exit_arg)
| Uncaught (e : exn).                 (* an exception nobody catches *)

Inductive step (A : Type) : Type :=
| Next (a : A)
| Stop (h : halt).
Arguments Next {A} a.
Arguments Stop {A} h.

(** The exit status of the process. *)
Definition exit_status {A} (s : step A) : Z :=
  match s with
  | Next _ => 0
  | Stop (SysExit (ExitCode n)) => n
  | Stop (SysExit (ExitMsg _)) => 1
  | Stop (Uncaught _) => 1
  end.

(** Computations over the world that may stop the program. *)
Definition M (A : Type) : Type := world -> step A * world.

Definition ret {A} (a : A) : M A := fun w => (Next a, w).

Definition bind {A B} (m : M A) (k : A -> M B) : M B :=
  fun w =>
    match m w with
    | (Next a, w') => k a w'
    | (Stop h, w') => (Stop h, w')
    end.

Notation "x <- m ;; k" := (bind m (fun x => k))
  (at level 100, m at next level, right associativity).
Notation "m ;;; k" := (bind m (fun _ => k))
  (at level 100, right associativity).

Definition sys_exit {A} (a : exit_arg) : M A := fun w => (Stop (SysExit a), w).

Definition print (line : string) : M unit :=
  fun w => (Next tt, mk_world (fs w) (stdout w ++ [line]) (requests w) (ticks w)).

Definition now (e : env) : M datetime :=
  fun w => (Next (clock e (ticks w)),
            mk_world (fs w) (stdout w) (requests w) (S (ticks w))).

(** [open(path, "w")], [write], close. *)
Definition write_file (path data : string) : M unit :=
  fun w => (Next tt,
            mk_world (<[path := File data]> (fs w)) (stdout w) (requests w) (ticks w)).

Definition send (e : env) (r : request) : M response :=
  fun w =>
    let w' := mk_world (fs w) (stdout w) (requests w ++ [r]) (ticks w) in
    match model e r with
    | Some resp => (Next resp, w')
    | None => (Stop (Uncaught ClientError), w')
    end.

(** ** Configuration *)

Definition AUDIO_PATH : string := "sample.wav".
Definition MAX_TOKENS_PRIMARY : Z := 8000.
Definition MAX_TOKENS_CONTINUE : Z := 9000.

(** ** File and audio helpers *)

Definition encode_audio_for_api (e : env) (path : string) : M (string * string) :=
  fun w =>
    match fs w !! path with
    | None =>
        sys_exit (ExitMsg ("[!] Audio file not found: " ++ resolve (cwd e) path)) w
    | Some n =>
        let fmt := lstrip "." (lower (path_suffix path)) in
        if negb (String.eqb fmt "wav" || String.eqb fmt "mp3") then
          sys_exit (ExitMsg "[!] Use a .wav or .mp3 file for input_audio.") w
        else
          match n with
          | File data => (Next (fmt, b64encode data), w)
          | Dir => (Stop (Uncaught (IsADirectoryError path)), w)
          end
    end.

(** ** Saving *)

Definition digit (n : nat) : ascii := ascii_of_nat (48 + n mod 10).

(** A field of [strftime] of fixed width: the last [width] decimal digits
    of [n], which for every field of a [datetime] is its zero-padded
    decimal. *)
Fixpoint fixed (width n : nat) : string :=
  match width with
  | O => EmptyString
  | S w => (fixed w (n / 10) ++ String (digit n) EmptyString)%string
  end.

(** [dt.strftime("%Y-%m-%d_%H-%M-%S")] *)
Definition strftime (dt : datetime) : string :=
  (fixed 4 (year dt) ++ "-" ++ fixed 2 (month dt) ++ "-" ++ fixed 2 (day dt)
   ++ "_" ++ fixed 2 (hour dt) ++ "-" ++ fixed 2 (minute dt)
   ++ "-" ++ fixed 2 (second dt))%string.

Arguments digit : simpl never.
Arguments strftime : simpl never.

Definition timestamped_name (e : env) (base ext : string) : M string :=
  dt <- now e ;;
  ret (base ++ "_" ++ strftime dt ++ "." ++ ext)%string.

Section Save.

(** [json.dump(payload, f, ensure_ascii=False, indent=2)]: the text. *)
Variable dumps : value -> string.

Definition save_json (e : env) (payload : value) (base_name : string) : M string :=
  path <- timestamped_name e base_name "json" ;;
  write_file path (dumps payload) ;;;
  ret path.

Definition save_raw_text (e : env) (text : string) (base_name : string) : M string :=
  path <- timestamped_name e base_name "txt" ;;
  write_file path text ;;;
  ret path.

End Save.

Example strftime_example :
  strftime (mk_datetime 2025 3 9 7 5 0) = "2025-03-09_07-05-00"%string.
Proof. vm_compute. reflexivity. Qed.

(** ** The audio helper *)

Lemma rfind_some c s i :
  rfind c s = Some i ->
  exists t, drop i s = String c t /\ count c t = O.
Proof.
  revert i. induction s as [|d s IH]; simpl; intros i H; [discriminate|].
  destruct (rfind c s) as [j|] eqn:R.
  - inversion H; subst i. simpl. apply IH. reflexivity.
  - destruct (ch_eqb d c) eqn:E; [|discriminate].
    inversion H; subst i. apply ch_eqb_eq in E. subst d.
    exists s. split; [reflexivity|].
    clear IH H. induction s as [|x s IHs]; [reflexivity|].
    simpl in R. destruct (rfind c s); [discriminate|].
    destruct (ch_eqb x c) eqn:Ex; [discriminate|].
    simpl. rewrite Ex. apply IHs. reflexivity.
Qed.

(** A suffix is empty, or a dot followed by text without a dot. *)
Lemma name_suffix_shape name :
  name_suffix name = EmptyString
  \/ exists t, name_suffix name = String "." t /\ count "." t = O.
Proof.
  unfold name_suffix. destruct (rfind "." name) as [i|] eqn:R; [|left; reflexivity].
  destruct ((0 <? i) && (i <? len name - 1))%nat; [|left; reflexivity].
  right. apply rfind_some. exact R.
Qed.

Lemma lower_ch_dot c : ch_eqb (lower_ch c) "." = ch_eqb c ".".
Proof. destruct c as [[] [] [] [] [] [] [] []]; reflexivity. Qed.

Lemma count_dot_lower t : count "." (lower t) = count "." t.
Proof.
  induction t as [|c t IH]; [reflexivity|].
  simpl. rewrite lower_ch_dot, IH. reflexivity.
Qed.

Lemma lstrip_no_dot u : count "." u = O -> lstrip "." u = u.
Proof.
  destruct u as [|c u]; [reflexivity|]. simpl.
  destruct (ch_eqb c "."); [discriminate | reflexivity].
Qed.

(** The format the helper computes is the lowered suffix without its dot. *)
Lemma fmt_of_suffix path :
  lstrip "." (lower (path_suffix path)) = drop 1 (lower (path_suffix path))
  /\ (lower (path_suffix path) = EmptyString
      \/ exists u, lower (path_suffix path) = String "." u).
Proof.
  unfold path_suffix.
  destruct (name_suffix_shape (path_name path)) as [-> | (t & -> & Ht)].
  - split; [reflexivity | left; reflexivity].
  - change (lower (String "." t)) with (String "."%char (lower t)).
    split; [|right; eexists; reflexivity].
    change (lstrip "." (String "." (lower t))) with (lstrip "." (lower t)).
    rewrite lstrip_no_dot by (rewrite count_dot_lower; exact Ht).
    reflexivity.
Qed.

Lemma fmt_accepted path :
  (String.eqb (lstrip "." (lower (path_suffix path))) "wav"
   || String.eqb (lstrip "." (lower (path_suffix path))) "mp3") = true
  <-> lower (path_suffix path) = ".wav"%string
      \/ lower (path_suffix path) = ".mp3"%string.
Proof.
  destruct (fmt_of_suffix path) as [-> Hs].
  rewrite orb_true_iff, !String.eqb_eq.
  destruct Hs as [-> | [u ->]]; simpl.
  - split; intros [H|H]; discriminate.
  - destruct u; split; intros [H|H]; try discriminate;
      solve [ left; congruence | right; congruence ].
Qed.


Definition sample_env : env :=
  mk_env (Some "sk-test"%string) ["audio_analysis_smoke.py"%string] "/home/actor"
    (fun n => mk_datetime 2025 3 9 7 5 n)
    (fun _ => None).

Definition sample_world : world :=
  mk_world (<["takes/Scene 1.WAV"%string := File "RIFF$"]>
            (<["notes.txt"%string := File "hello"]> ∅)) [] [] 0.


(** ** Time-stamped result files *)













Example save_json_example :
  fst (save_json dumps sample_env (JObject []) "analysis_result" sample_world)
  = Next "analysis_result_2025-03-09_07-05-00.json"%string.
Proof. vm_compute. reflexivity. Qed.

(* ===================================================================== *)
(** * audio_analysis_smoke.py: the main program                           *)
(* ===================================================================== *)

(** ** Text operations of the console preview *)

Definition all_space (s : string) : bool := negb (truthy (Fence.skip_space s)).

(** [s.rstrip()] *)
Fixpoint rstrip (s : string) : string :=
  match s with
  | EmptyString => EmptyString
  | String c r => if all_space s then EmptyString else String c (rstrip r)
  end.

(** [s.strip()] *)
Definition strip (s : string) : string := rstrip (Fence.skip_space s).

(** A continuation byte of a multi-byte character. *)
Definition is_cont (c : ascii) : bool :=
  ((128 <=? code c) && (code c <? 192))%N.

(** [len(s)], counted in characters. *)
Fixpoint char_len (s : string) : nat :=
  match s with
  | EmptyString => O
  | String c r => ((if is_cont c then 0 else 1) + char_len r)%nat
  end.

(** [s[:n]], counted in characters. *)
Fixpoint char_take (n : nat) (s : string) : string :=
  match s with
  | EmptyString => EmptyString
  | String c r =>
      if is_cont c then String c (char_take n r)
      else match n with
           | O => EmptyString
           | S n' => String c (char_take n' r)
           end
  end.

Example strip_example :
  strip (String (ascii_of_N 10) " {} ") = "{}"%string.
Proof. vm_compute. reflexivity. Qed.

Section Tool.

(** [json.loads] and [json.dump], see [Json.loads] and [Json.dumps]. *)
Variable loads : string -> option value.
Variable dumps : value -> string.

(** ** Core call *)

Definition call_model (e : env) (fmt b64 : string) (max_tokens : Z) : M response :=
  send e (Primary fmt b64 max_tokens).

Definition continue_if_truncated
    (e : env) (fmt b64 partial_text : string) (max_tokens : Z) : M response :=
  send e (Continuation fmt b64 partial_text max_tokens).

(** ** Main *)

(** "Try to parse" (lines 244-251): the parsed value, or [None] after the
    raw text was saved. *)
Definition try_parse (e : env) (text : string) : M value :=
  match parse_json_or_raise loads text with
  | Return v => ret v
  | Raise _ =>
      raw_path <- save_raw_text e text "analysis_result_raw" ;;
      print ("[i] Saved partial raw output to: " ++ raw_path) ;;;
      ret JNull
  end.

(** The body of "if parsed is None or finish == length" (lines 255-269):
    the new values of [parsed] and [text]. *)
Definition continuation (e : env) (fmt b64 text : string) : M (value * string) :=
  print "[info] Attempting continuation to complete JSON..." ;;;
  resp2 <- continue_if_truncated e fmt b64 text MAX_TOKENS_CONTINUE ;;
  let text2 := reply_text resp2 in
  match parse_json_or_raise loads text2 with
  | Return v =>
      (if String.eqb (finish_reason resp2) "length"
       then print "[warning] Continuation was also cut off (length). Consider increasing MAX_TOKENS_CONTINUE or tightening output."
       else ret tt) ;;;
      ret (v, text2)
  | Raise _ =>
      raw2_path <- save_raw_text e text2 "analysis_result_raw_continuation" ;;
      print "[!] Could not parse JSON even after continuation." ;;;
      print ("[i] Raw continuation saved to: " ++ raw2_path) ;;;
      sys_exit (ExitCode 1)
  end.

(** The test of line 254. *)
Definition needs_continuation (parsed : value) (finish : string) : bool :=
  is_None parsed || String.eqb finish "length".

(** Lines 241-279: everything after the primary call returned. *)
Definition finish_run (e : env) (fmt b64 : string) (resp : response) : M unit :=
  let finish := finish_reason resp in
  let text := reply_text resp in
  parsed <- try_parse e text ;;
  pt <- (if needs_continuation parsed finish
         then continuation e fmt b64 text
         else ret (parsed, text)) ;;
  json_path <- save_json dumps e (fst pt) "analysis_result" ;;
  print (newline ++ "Saved JSON to: " ++ json_path) ;;;
  print (newline ++ "[debug] finish_reason (first call): " ++ finish) ;;;
  let preview := strip (snd pt) in
  print (newline ++ "Model analysis (truncated preview):") ;;;
  print (char_take 1200 preview ++ " "
         ++ (if (1200 <? char_len preview)%nat then "..." else EmptyString)).

Definition main (e : env) : M unit :=
  match api_key e with
  | Some (String _ _) =>
      fb <- encode_audio_for_api e AUDIO_PATH ;;
      resp <- call_model e (fst fb) (snd fb) MAX_TOKENS_PRIMARY ;;
      finish_run e (fst fb) (snd fb) resp
  | _ => sys_exit (ExitMsg "[!] OPENAI_API_KEY is not set for this shell/session.")
  end.

End Tool.

(** A run: the key is set, [sample.wav] is there, and the remote model
    answers the two requests with the given replies. *)
Definition studio (primary followup : response) : env :=
  mk_env (Some "sk-test"%string)
    ["audio_analysis_smoke.py"%string] "/home/actor"
    (fun n => mk_datetime 2025 3 9 7 5 n)
    (fun r => match r with
              | Primary _ _ _ => Some primary
              | Continuation _ _ _ _ => Some followup
              end).

Definition desk : world :=
  mk_world (<["sample.wav"%string := File "RIFF$"]> ∅) [] [] 0.

Example run_clean :
  let out := main loads dumps
               (studio (mk_response "stop" (dq "{'scores': {}}"))
                       (mk_response "stop" "unused")) desk in
  fst out = Next tt
  /\ requests (snd out) = [Primary "wav" "UklGRiQ=" 8000]
  /\ fs (snd out) !! "analysis_result_2025-03-09_07-05-00.json"%string
     = Some (File (dq "{
  'scores': {}
}")).
Proof. vm_compute. repeat split; reflexivity. Qed.

(** ** Runs of the main program *)

Ltac run_blocks :=
  cbv beta iota delta
    [finish_run try_parse continuation continue_if_truncated call_model
     save_json save_raw_text timestamped_name now write_file print send
     sys_exit ret bind fst snd requests fs ticks stdout].


Section Runs.

Variable loads : string -> option value.
Variable dumps : value -> string.
Variable e : env.

(** The request log after the primary call. *)
Definition asked (r : request) (w : world) : world :=
  mk_world (fs w) (stdout w) (requests w ++ [r]) (ticks w).

(** Whether the run makes the continuation request, from the primary reply. *)
Definition retries (resp : response) : bool :=
  match parse_json_or_raise loads (reply_text resp) with
  | Return v => needs_continuation v (finish_reason resp)
  | Raise _ => true
  end.

Definition json_path (t : nat) : string :=
  ("analysis_result_" ++ strftime (clock e t) ++ ".json")%string.

Definition raw_continuation_path (t : nat) : string :=
  ("analysis_result_raw_continuation_" ++ strftime (clock e t) ++ ".txt")%string.

Lemma main_reaches_primary k data resp w :
  api_key e = Some k ->
  truthy k = true ->
  fs w !! AUDIO_PATH = Some (File data) ->
  model e (Primary "wav" (b64encode data) MAX_TOKENS_PRIMARY) = Some resp ->
  main loads dumps e w
  = finish_run loads dumps e "wav" (b64encode data) resp
      (asked (Primary "wav" (b64encode data) MAX_TOKENS_PRIMARY) w).
Proof.
  intros Hk Ht Hf Hm. unfold main. rewrite Hk.
  destruct k as [|c k]; [discriminate|].
  unfold bind at 1. unfold encode_audio_for_api. rewrite Hf.
  change (lstrip "." (lower (path_suffix AUDIO_PATH))) with "wav"%string.
  cbn [String.eqb Ascii.eqb Bool.eqb negb orb fst snd].
  unfold bind at 1. unfold call_model, send. cbn [fst snd]. rewrite Hm.
  reflexivity.
Qed.

(** Without a key, or without the audio file, no request is made. *)
Lemma main_without_key w :
  api_key e = None ->
  main loads dumps e w
  = (Stop (SysExit (ExitMsg "[!] OPENAI_API_KEY is not set for this shell/session.")), w).
Proof. intros H. unfold main. rewrite H. reflexivity. Qed.

Section AfterPrimary.

Variables (fmt b64 : string) (resp : response) (w : world).

Let text := reply_text resp.
Let finish := finish_reason resp.
Let follow_up := Continuation fmt b64 text MAX_TOKENS_CONTINUE.


(** The continuation block, case by case. *)
Lemma continuation_no_reply text0 w0 :
  model e (Continuation fmt b64 text0 MAX_TOKENS_CONTINUE) = None ->
  exists w1,
    continuation loads e fmt b64 text0 w0 = (Stop (Uncaught ClientError), w1)
    /\ requests w1
       = requests w0 ++ [Continuation fmt b64 text0 MAX_TOKENS_CONTINUE].
Proof.
  intros Hm. eexists.
  unfold continuation, continue_if_truncated, send. run_blocks.
  rewrite Hm. split; reflexivity.
Qed.

Lemma continuation_parsed text0 w0 resp2 v2 :
  model e (Continuation fmt b64 text0 MAX_TOKENS_CONTINUE) = Some resp2 ->
  parse_json_or_raise loads (reply_text resp2) = Return v2 ->
  exists w1,
    continuation loads e fmt b64 text0 w0 = (Next (v2, reply_text resp2), w1)
    /\ requests w1
       = requests w0 ++ [Continuation fmt b64 text0 MAX_TOKENS_CONTINUE]
    /\ ticks w1 = ticks w0.
Proof.
  intros Hm Hp.
  unfold continuation, continue_if_truncated, send. run_blocks.
  rewrite Hm. run_blocks. rewrite Hp.
  destruct (String.eqb (finish_reason resp2) "length");
    eexists; split; [reflexivity | split; reflexivity | reflexivity
                    | split; reflexivity].
Qed.

Lemma continuation_unparsed text0 w0 resp2 err :
  model e (Continuation fmt b64 text0 MAX_TOKENS_CONTINUE) = Some resp2 ->
  parse_json_or_raise loads (reply_text resp2) = Raise err ->
  exists w1,
    continuation loads e fmt b64 text0 w0 = (Stop (SysExit (ExitCode 1)), w1)
    /\ requests w1
       = requests w0 ++ [Continuation fmt b64 text0 MAX_TOKENS_CONTINUE]
    /\ fs w1 !! raw_continuation_path (ticks w0) = Some (File (reply_text resp2)).
Proof.
  intros Hm Hp.
  unfold continuation, continue_if_truncated, send. run_blocks.
  rewrite Hm. run_blocks. rewrite Hp. run_blocks.
  eexists. split; [reflexivity|]. cbn [requests fs].
  split; [reflexivity | apply lookup_insert_eq].
Qed.

(** What follows the continuation block: the JSON file and the preview. *)
Lemma finish_run_tail parsed0 w0 pt w1 :
  (if needs_continuation parsed0 finish
   then continuation loads e fmt b64 text
   else ret (parsed0, text)) w0 = (Next pt, w1) ->
  exists w2,
    (pt0 <- (if needs_continuation parsed0 finish
             then continuation loads e fmt b64 text
             else ret (parsed0, text)) ;;
     json_path0 <- save_json dumps e (fst pt0) "analysis_result" ;;
     print (newline ++ "Saved JSON to: " ++ json_path0) ;;;
     print (newline ++ "[debug] finish_reason (first call): " ++ finish) ;;;
     print (newline ++ "Model analysis (truncated preview):") ;;;
     print (char_take 1200 (strip (snd pt0)) ++ " "
            ++ (if (1200 <? char_len (strip (snd pt0)))%nat
                then "..." else EmptyString))) w0
    = (Next tt, w2)
    /\ requests w2 = requests w1
    /\ fs w2 !! json_path (ticks w1) = Some (File (dumps (fst pt))).
Proof.
  intros H. unfold bind at 1. rewrite H. run_blocks.
  eexists. split; [reflexivity|]. cbn [requests fs].
  split; [reflexivity | apply lookup_insert_eq].
Qed.

Lemma finish_run_halts parsed0 w0 h w1 :
  (if needs_continuation parsed0 finish
   then continuation loads e fmt b64 text
   else ret (parsed0, text)) w0 = (Stop h, w1) ->
  (pt0 <- (if needs_continuation parsed0 finish
           then continuation loads e fmt b64 text
           else ret (parsed0, text)) ;;
   json_path0 <- save_json dumps e (fst pt0) "analysis_result" ;;
   print (newline ++ "Saved JSON to: " ++ json_path0) ;;;
   print (newline ++ "[debug] finish_reason (first call): " ++ finish) ;;;
   print (newline ++ "Model analysis (truncated preview):") ;;;
   print (char_take 1200 (strip (snd pt0)) ++ " "
          ++ (if (1200 <? char_len (strip (snd pt0)))%nat
              then "..." else EmptyString))) w0
  = (Stop h, w1).
Proof. intros H. unfold bind at 1. rewrite H. reflexivity. Qed.

(** The value of [parsed] and the world after "Try to parse". *)
Lemma try_parse_result :
  exists parsed0 w0,
    try_parse loads e text w = (Next parsed0, w0)
    /\ requests w0 = requests w
    /\ needs_continuation parsed0 finish = retries resp
    /\ (forall v, parse_json_or_raise loads text = Return v ->
          parsed0 = v /\ w0 = w).
Proof.
  subst text finish. unfold try_parse, retries.
  destruct (parse_json_or_raise loads (reply_text resp)) as [v|err] eqn:Hp.
  - exists v, w. split; [reflexivity|]. split; [reflexivity|].
    split; [reflexivity|]. intros v' Hv. split; congruence.
  - run_blocks. eexists JNull, _. split; [reflexivity|].
    split; [reflexivity|]. split; [reflexivity|]. intros v' Hv. discriminate.
Qed.

Lemma finish_run_after_try parsed0 w0 :
  try_parse loads e text w = (Next parsed0, w0) ->
  finish_run loads dumps e fmt b64 resp w
  = (pt0 <- (if needs_continuation parsed0 finish
             then continuation loads e fmt b64 text
             else ret (parsed0, text)) ;;
     json_path0 <- save_json dumps e (fst pt0) "analysis_result" ;;
     print (newline ++ "Saved JSON to: " ++ json_path0) ;;;
     print (newline ++ "[debug] finish_reason (first call): " ++ finish) ;;;
     print (newline ++ "Model analysis (truncated preview):") ;;;
     print (char_take 1200 (strip (snd pt0)) ++ " "
            ++ (if (1200 <? char_len (strip (snd pt0)))%nat
                then "..." else EmptyString))) w0.
Proof.
  intros H. unfold finish_run. unfold bind at 1.
  fold text. rewrite H. reflexivity.
Qed.

Lemma finish_run_requests :
  requests (snd (finish_run loads dumps e fmt b64 resp w))
  = requests w ++ (if retries resp then [follow_up] else []).
Proof.
  destruct try_parse_result as (parsed0 & w0 & Htp & Hreq & Hneed & _).
  rewrite (finish_run_after_try parsed0 w0 Htp).
  destruct (retries resp) eqn:Hr.
  - destruct (model e follow_up) as [resp2|] eqn:Hm.
    + destruct (parse_json_or_raise loads (reply_text resp2)) as [v2|err] eqn:Hp2.
      * destruct (continuation_parsed text w0 resp2 v2 Hm Hp2)
          as (w1 & Hc & Hq & _).
        destruct (finish_run_tail parsed0 w0 (v2, reply_text resp2) w1)
          as (w2 & -> & Hq2 & _).
        { rewrite Hneed. exact Hc. }
        cbn [snd]. rewrite Hq2, Hq, Hreq. reflexivity.
      * destruct (continuation_unparsed text w0 resp2 err Hm Hp2)
          as (w1 & Hc & Hq & _).
        rewrite (finish_run_halts parsed0 w0 (SysExit (ExitCode 1)) w1)
          by (rewrite Hneed; exact Hc).
        cbn [snd]. rewrite Hq, Hreq. reflexivity.
    + destruct (continuation_no_reply text w0 Hm) as (w1 & Hc & Hq).
      rewrite (finish_run_halts parsed0 w0 (Uncaught ClientError) w1)
        by (rewrite Hneed; exact Hc).
      cbn [snd]. rewrite Hq, Hreq. reflexivity.
  - destruct (finish_run_tail parsed0 w0 (parsed0, text) w0)
      as (w2 & -> & Hq2 & _).
    { rewrite Hneed. reflexivity. }
    cbn [snd]. rewrite Hq2, Hreq, app_nil_r. reflexivity.
Qed.



End AfterPrimary.

End Runs.






(** ** Concrete runs *)

Definition good_reply : response := mk_response "stop" (dq "{'scores': {}}").
Definition prose_reply : response := mk_response "stop" "Sorry, I cannot rate this.".






End Smoke.

(* ===================================================================== *)
(** * gui.py: the desktop front end                                       *)
(* ===================================================================== *)

(** The GUI thread and the worker thread share the queue and the fields
    of the [AnalyzerGUI] object.  A state of the model is the object
    together with the worker threads and the pending timers; a step is one
    user event, one timer call, one [get_nowait] of [_poll_queue], or one
    statement of a worker.  The GUI thread runs one callback at a time, so
    user events and timer calls wait while it is inside [_poll_queue]; the
    workers run at any time. *)

Module Gui.

Inductive button_state : Type := normal | disabled.

(** An item of the queue: a text, or the sentinel [None]. *)
Definition item : Type := option string.

(** What [Popen] and the child process do. *)
Inductive child : Type :=
| NotStarted                                   (* [FileNotFoundError] *)
| Started (lines : list string) (return_code : Z).

(** A word of the command line. *)
Inductive arg : Type :=
| SysExecutable                                (* [sys.executable] *)
| Arg (s : string).

(** Where a worker thread is in [_run_process]. *)
Inductive worker : Type :=
| AtStart                                      (* before line 83 *)
| Reading (rest : list string) (return_code : Z)  (* lines 99-100 *)
| AtWait (return_code : Z)                     (* line 101 *)
| PutFinished (return_code : Z)                (* line 102 *)
| PutFailed                                    (* line 94 *)
| PutSentinel.                                 (* lines 95 and 103 *)

Inductive dialog : Type :=
| ShowError (title : string)
| ShowWarning (title : string).

Record gui : Type := mk_gui {
  audio_path : option string;  (* [self.audio_path] *)
  running : bool;  (* [self.running] *)
  selected_file_var : string;  (* the text of the file label *)
  run_button : button_state;  (* the state of the Run button *)
  log_text : list string;  (* the chunks inserted at the end of the log, in order *)
  output_queue : list item;  (* [self.output_queue], next item first *)
  timers : list nat;  (* the delays of the pending [root.after(ms, self._poll_queue)] *)
  threads : list worker;  (* the worker threads that have not returned *)
  dialogs : list dialog;  (* the message boxes shown *)
  polling : bool;  (* the GUI thread is inside [_poll_queue] *)
  run_child : option child;  (* bookkeeping: what [Popen] did in the current run *)
  popen_log : list (list arg)  (* bookkeeping: the commands given to [Popen] *)
}.

Definition set_audio_path (x : option string) (g : gui) : gui :=
  mk_gui x (running g) (selected_file_var g) (run_button g)
    (log_text g) (output_queue g) (timers g) (threads g)
    (dialogs g) (polling g) (run_child g) (popen_log g).

Definition set_running (x : bool) (g : gui) : gui :=
  mk_gui (audio_path g) x (selected_file_var g) (run_button g)
    (log_text g) (output_queue g) (timers g) (threads g)
    (dialogs g) (polling g) (run_child g) (popen_log g).

Definition set_selected_file_var (x : string) (g : gui) : gui :=
  mk_gui (audio_path g) (running g) x (run_button g)
    (log_text g) (output_queue g) (timers g) (threads g)
    (dialogs g) (polling g) (run_child g) (popen_log g).

Definition set_run_button (x : button_state) (g : gui) : gui :=
  mk_gui (audio_path g) (running g) (selected_file_var g) x
    (log_text g) (output_queue g) (timers g) (threads g)
    (dialogs g) (polling g) (run_child g) (popen_log g).

Definition set_log_text (x : list string) (g : gui) : gui :=
  mk_gui (audio_path g) (running g) (selected_file_var g) (run_button g)
    x (output_queue g) (timers g) (threads g)
    (dialogs g) (polling g) (run_child g) (popen_log g).

Definition set_output_queue (x : list item) (g : gui) : gui :=
  mk_gui (audio_path g) (running g) (selected_file_var g) (run_button g)
    (log_text g) x (timers g) (threads g)
    (dialogs g) (polling g) (run_child g) (popen_log g).

Definition set_timers (x : list nat) (g : gui) : gui :=
  mk_gui (audio_path g) (running g) (selected_file_var g) (run_button g)
    (log_text g) (output_queue g) x (threads g)
    (dialogs g) (polling g) (run_child g) (popen_log g).

Definition set_threads (x : list worker) (g : gui) : gui :=
  mk_gui (audio_path g) (running g) (selected_file_var g) (run_button g)
    (log_text g) (output_queue g) (timers g) x
    (dialogs g) (polling g) (run_child g) (popen_log g).

Definition set_dialogs (x : list dialog) (g : gui) : gui :=
  mk_gui (audio_path g) (running g) (selected_file_var g) (run_button g)
    (log_text g) (output_queue g) (timers g) (threads g)
    x (polling g) (run_child g) (popen_log g).

Definition set_polling (x : bool) (g : gui) : gui :=
  mk_gui (audio_path g) (running g) (selected_file_var g) (run_button g)
    (log_text g) (output_queue g) (timers g) (threads g)
    (dialogs g) x (run_child g) (popen_log g).

Definition set_run_child (x : option child) (g : gui) : gui :=
  mk_gui (audio_path g) (running g) (selected_file_var g) (run_button g)
    (log_text g) (output_queue g) (timers g) (threads g)
    (dialogs g) (polling g) x (popen_log g).

Definition set_popen_log (x : list (list arg)) (g : gui) : gui :=
  mk_gui (audio_path g) (running g) (selected_file_var g) (run_button g)
    (log_text g) (output_queue g) (timers g) (threads g)
    (dialogs g) (polling g) (run_child g) x.

(** The state after [AnalyzerGUI.__init__]. *)
Definition init : gui :=
  mk_gui None false "No file selected" disabled
    [] [] [100%nat] []
    [] false None [].

(** ** The methods *)

(** [select_file]; [path] is what the file dialog returns, the empty
    string when the user cancels. *)
Definition select_file (path : string) (g : gui) : gui :=
  if PyStr.truthy path
  then set_run_button normal
         (set_selected_file_var path (set_audio_path (Some path) g))
  else g.

Definition show (d : dialog) (g : gui) : gui :=
  set_dialogs (dialogs g ++ [d]) g.

(** [run_analysis]; the two booleans are [RUN_SCRIPT.exists()] and
    [os.path.exists(self.audio_path)]. *)
Definition run_analysis (script_exists audio_exists : bool) (g : gui) : gui :=
  if negb script_exists then show (ShowError "Missing Script") g
  else
    match audio_path g with
    | Some (String _ _) =>
        if running g then g
        else if negb audio_exists then show (ShowError "File Missing") g
        else
          set_threads (threads g ++ [AtStart])
            (set_run_button disabled
               (set_running true
                  (set_run_child None (set_log_text [] g))))
    | _ => show (ShowWarning "No Audio") g
    end.

(** The command of line 83. *)
Definition command (path : string) : list arg :=
  [SysExecutable; Arg "run.py"; Arg "--audio"; Arg path].

Definition put (x : item) (g : gui) : gui :=
  set_output_queue (output_queue g ++ [x]) g.

Definition failed_line : string :=
  ("Failed to start python interpreter." ++ Json.newline)%string.

Definition finished_line (return_code : Z) : string :=
  (Json.newline ++ "[process] Finished with exit code "
   ++ NilZero.string_of_int (Z.to_int return_code) ++ Json.newline)%string.

(** One statement of [_run_process]: the new state, and where the thread
    is next ([None] when it has returned).  [c] is what [Popen] does when
    the thread is at its start. *)
Definition worker_step (c : child) (wk : worker) (g : gui) : gui * option worker :=
  match wk with
  | AtStart =>
      match audio_path g with
      | Some path =>
          let g' := set_popen_log (popen_log g ++ [command path])
                      (set_run_child (Some c) g) in
          match c with
          | NotStarted => (g', Some PutFailed)
          | Started lines rc => (g', Some (Reading lines rc))
          end
      | None => (g, None)
      end
  | Reading (line :: rest) rc => (put (Some line) g, Some (Reading rest rc))
  | Reading [] rc => (g, Some (AtWait rc))
  | AtWait rc => (g, Some (PutFinished rc))
  | PutFinished rc => (put (Some (finished_line rc)) g, Some PutSentinel)
  | PutFailed => (put (Some failed_line) g, Some PutSentinel)
  | PutSentinel => (put None g, None)
  end.

(** The [finally] clause of [_poll_queue]. *)
Definition reschedule (g : gui) : gui :=
  set_polling false (set_timers (timers g ++ [100%nat]) g).

(** One turn of the loop of [_poll_queue]. *)
Definition poll_get (g : gui) : gui :=
  match output_queue g with
  | [] => reschedule g
  | None :: q =>
      reschedule (set_run_button normal (set_running false (set_output_queue q g)))
  | Some message :: q =>
      set_log_text (log_text g ++ [message]) (set_output_queue q g)
  end.

(** ** Steps *)

Inductive label : Type :=
| SelectFile (path : string)
| ClickRun (script_exists audio_exists : bool)
| TimerFires
| PollGet
| WorkerStep (i : nat) (c : child).

Definition step (l : label) (g : gui) : option gui :=
  match l with
  | SelectFile path =>
      if polling g then None else Some (select_file path g)
  | ClickRun se ae =>
      if polling g then None
      else match run_button g with
           | normal => Some (run_analysis se ae g)
           | disabled => None
           end
  | TimerFires =>
      if polling g then None
      else match timers g with
           | _ :: ts => Some (set_polling true (set_timers ts g))
           | [] => None
           end
  | PollGet =>
      if polling g then Some (poll_get g) else None
  | WorkerStep i c =>
      match threads g !! i with
      | Some wk =>
          let '(g', next) := worker_step c wk g in
          Some (set_threads
                  (match next with
                   | Some wk' => <[i := wk']> (threads g')
                   | None => delete i (threads g')
                   end) g')
      | None => None
      end
  end.

Fixpoint run (ls : list label) (g : gui) : option gui :=
  match ls with
  | [] => Some g
  | l :: ls' =>
      match step l g with
      | Some g' => run ls' g'
      | None => None
      end
  end.

Inductive reachable : gui -> Prop :=
| reach_init : reachable init
| reach_step g l g' : reachable g -> step l g = Some g' -> reachable g'.

(** The child process of a worker is alive from [Popen] until
    [process.wait()] has returned. *)
Definition alive (wk : worker) : bool :=
  match wk with
  | Reading _ _ | AtWait _ => true
  | _ => false
  end.

Definition active_children (g : gui) : nat :=
  length (List.filter alive (threads g)).

(** What a run shows in the log. *)
Definition output (c : child) : list string :=
  match c with
  | Started lines rc => lines ++ [finished_line rc]
  | NotStarted => [failed_line]
  end.

Definition session : list label :=
  [SelectFile "take1.wav"; ClickRun true true;
   WorkerStep 0 (Started ["one"%string; "two"%string] 0);
   WorkerStep 0 NotStarted; TimerFires; PollGet; PollGet;
   WorkerStep 0 NotStarted; WorkerStep 0 NotStarted; WorkerStep 0 NotStarted;
   WorkerStep 0 NotStarted; WorkerStep 0 NotStarted;
   TimerFires; PollGet; PollGet; PollGet].

Example session_log :
  option_map (fun g => (log_text g, running g, run_button g, timers g, threads g))
    (run session init)
  = Some (["one"%string; "two"%string; finished_line 0], false, normal, [100%nat], []).
Proof. vm_compute. reflexivity. Qed.

(** ** The invariant of the reachable states *)

(** The items a worker will still put, the sentinel last. *)
Definition owed (wk : worker) : list item :=
  match wk with
  | AtStart => []
  | Reading rest rc => map Some (rest ++ [finished_line rc]) ++ [None]
  | AtWait rc | PutFinished rc => [Some (finished_line rc); None]
  | PutFailed => [Some failed_line; None]
  | PutSentinel => [None]
  end.

Definition shown (c : option child) : list string :=
  match c with
  | Some c' => output c'
  | None => []
  end.

(** While a run is on, there is one worker or none; the log, the queue
    and what the worker still owes make up the output of the child and the
    sentinel, in this order.  Between runs the queue is empty and the log
    holds the whole output of the last child. *)
Definition flow (g : gui) : Prop :=
  match running g, threads g with
  | false, [] =>
      output_queue g = [] /\ log_text g = shown (run_child g)
  | true, [AtStart] =>
      run_child g = None /\ log_text g = [] /\ output_queue g = []
  | true, [wk] =>
      exists c, run_child g = Some c /\
        map Some (log_text g) ++ output_queue g ++ owed wk
        = map Some (output c) ++ [None]
  | true, [] =>
      exists c, run_child g = Some c /\
        map Some (log_text g) ++ output_queue g = map Some (output c) ++ [None]
  | _, _ => False
  end.

Definition inv (g : gui) : Prop :=
  timers g = (if polling g then [] else [100%nat])
  /\ (running g = true -> audio_path g <> None)
  /\ flow g.

Lemma sentinel_last (a b : list string) (r : list item) :
  map Some a ++ None :: r = map Some b ++ [None] -> a = b /\ r = [].
Proof.
  revert b. induction a as [|x a IH]; intros [|y b] H; simpl in H.
  - inversion H. split; reflexivity.
  - discriminate.
  - discriminate.
  - inversion H as [[Hx Ha]]. destruct (IH b Ha) as [-> ->].
    split; reflexivity.
Qed.

Lemma owed_nonempty wk : wk <> AtStart -> owed wk <> [].
Proof.
  destruct wk as [|rest rc|rc|rc| |]; intros H; try congruence;
    try discriminate.
  simpl. destruct (map Some (rest ++ [finished_line rc])); discriminate.
Qed.

Lemma inv_init : inv init.
Proof. repeat split. intros H. discriminate. Qed.

Ltac same_flow g :=
  solve [ destruct g; unfold inv, flow in *; simpl in *; subst;
          repeat split;
          first [ assumption | tauto | discriminate | intros; discriminate ] ].

Lemma inv_select path g : inv g -> polling g = false -> inv (select_file path g).
Proof.
  intros (Ht & Ha & Hf) Hp. unfold select_file.
  destruct (PyStr.truthy path); [|repeat split; assumption].
  same_flow g.
Qed.

Lemma inv_run_analysis se ae g : inv g -> inv (run_analysis se ae g).
Proof.
  intros Hinv. pose proof Hinv as (Ht & Ha & Hf). unfold run_analysis.
  destruct (negb se); [same_flow g|].
  destruct (audio_path g) as [[|c path]|] eqn:Hap; try (same_flow g).
  destruct (running g) eqn:Hr; [exact Hinv|].
  destruct (negb ae); [same_flow g|].
  unfold flow in Hf. rewrite Hr in Hf.
  destruct (threads g) as [|wk ths] eqn:Hth; [|contradiction].
  same_flow g.
Qed.

Lemma inv_timer g d ts :
  inv g -> polling g = false -> timers g = d :: ts ->
  inv (set_polling true (set_timers ts g)).
Proof.
  intros (Ht & Ha & Hf) Hp Htm. rewrite Hp, Htm in Ht.
  inversion Ht; subst. same_flow g.
Qed.

Lemma inv_poll_get g : inv g -> polling g = true -> inv (poll_get g).
Proof.
  intros (Ht & Ha & Hf) Hp. rewrite Hp in Ht.
  destruct g as [ap rn sv rb lg qu tm th dl pl rc pg].
  unfold inv, flow, poll_get in *. simpl in *. subst.
  destruct qu as [|[message|] q]; simpl.
  - split; [reflexivity|]. split; [exact Ha | exact Hf].
  - split; [reflexivity|]. split; [exact Ha|].
    destruct rn; [|destruct th; [destruct Hf; discriminate | contradiction]].
    destruct th as [|wk [|wk' ths]].
    + destruct Hf as (c & Hc & Heq). exists c. split; [exact Hc|].
      rewrite map_app, <- app_assoc. exact Heq.
    + destruct wk; try (destruct Hf as (_ & _ & Hf); discriminate);
        destruct Hf as (c & Hc & Heq); exists c; (split; [exact Hc|]);
        rewrite map_app, <- app_assoc; exact Heq.
    + destruct wk; contradiction.
  - split; [reflexivity|]. split; [discriminate|].
    destruct rn; [|destruct th; [destruct Hf; discriminate | contradiction]].
    destruct th as [|wk [|wk' ths]].
    + destruct Hf as (c & Hc & Heq).
      apply sentinel_last in Heq. destruct Heq as [-> ->].
      rewrite Hc. split; reflexivity.
    + exfalso. pose proof (owed_nonempty wk) as Hne.
      destruct wk; try (destruct Hf as (_ & _ & Hf); discriminate);
        destruct Hf as (c & Hc & Heq);
        apply sentinel_last in Heq; destruct Heq as [_ Heq];
        apply app_eq_nil in Heq; destruct Heq as [_ Heq];
        (apply Hne; [discriminate | exact Heq]).
    + destruct wk; contradiction.
Qed.

(** A worker step in a state of the invariant: there is one worker, and
    it is the one that steps. *)
Lemma inv_worker_step g i wk :
  inv g ->
  threads g !! i = Some wk ->
  i = O /\ threads g = [wk] /\ running g = true.
Proof.
  intros (_ & _ & Hf) Hl. unfold flow in Hf.
  destruct (running g); destruct (threads g) as [|wk0 [|wk1 ths]];
    try discriminate; try contradiction;
    try (destruct wk0; contradiction).
  destruct i; simpl in Hl; [|discriminate].
  inversion Hl. subst. repeat split.
Qed.

Lemma inv_worker g c wk :
  inv g ->
  threads g = [wk] ->
  running g = true ->
  inv (set_threads
         (match snd (worker_step c wk g) with
          | Some wk' => <[O := wk']> (threads (fst (worker_step c wk g)))
          | None => delete O (threads (fst (worker_step c wk g)))
          end) (fst (worker_step c wk g))).
Proof.
  intros (Ht & Ha & Hf) Hth Hr.
  destruct g as [ap rn sv rb lg qu tm th dl pl rc pg].
  unfold inv, flow in *. simpl in *. subst.
  specialize (Ha eq_refl).
  destruct wk as [|rest rcode|rcode|rcode| |]; simpl.
  - destruct Hf as (-> & -> & ->).
    destruct ap as [path|]; [|congruence].
    destruct c as [|lines rcode]; simpl;
      (split; [reflexivity|]); (split; [intros _; discriminate|]);
      eexists; (split; [reflexivity|]); reflexivity.
  - destruct Hf as (c0 & Hc & Heq).
    destruct rest as [|line rest]; simpl;
      (split; [reflexivity|]); (split; [intros _; exact Ha|]);
      exists c0; (split; [exact Hc|]).
    + exact Heq.
    + rewrite <- app_assoc. exact Heq.
  - destruct Hf as (c0 & Hc & Heq).
    split; [reflexivity|]. split; [intros _; exact Ha|].
    exists c0. split; [exact Hc | exact Heq].
  - destruct Hf as (c0 & Hc & Heq).
    split; [reflexivity|]. split; [intros _; exact Ha|].
    exists c0. split; [exact Hc|]. rewrite <- app_assoc. exact Heq.
  - destruct Hf as (c0 & Hc & Heq).
    split; [reflexivity|]. split; [intros _; exact Ha|].
    exists c0. split; [exact Hc|]. rewrite <- app_assoc. exact Heq.
  - destruct Hf as (c0 & Hc & Heq).
    split; [reflexivity|]. split; [intros _; exact Ha|].
    exists c0. split; [exact Hc|]. exact Heq.
Qed.

(** Every step keeps the invariant. *)
Lemma inv_step g l g' : inv g -> step l g = Some g' -> inv g'.
Proof.
  intros Hinv Hs. destruct l as [path|se ae| | |i c]; simpl in Hs.
  - destruct (polling g) eqn:Hp; [discriminate|].
    inversion Hs. subst. apply inv_select; assumption.
  - destruct (polling g); [discriminate|].
    destruct (run_button g); [|discriminate].
    inversion Hs. subst. apply inv_run_analysis. assumption.
  - destruct (polling g) eqn:Hp; [discriminate|].
    destruct (timers g) as [|d ts] eqn:Htm; [discriminate|].
    inversion Hs. subst. apply (inv_timer g d ts); assumption.
  - destruct (polling g) eqn:Hp; [|discriminate].
    inversion Hs. subst. apply inv_poll_get; assumption.
  - destruct (threads g !! i) as [wk|] eqn:Hl; [|discriminate].
    destruct (inv_worker_step g i wk Hinv Hl) as (-> & Hth & Hr).
    pose proof (inv_worker g c wk Hinv Hth Hr) as H.
    destruct (worker_step c wk g) as [g1 next]. simpl in H.
    inversion Hs. subst. exact H.
Qed.

Lemma reachable_inv g : reachable g -> inv g.
Proof.
  induction 1 as [|g l g' _ IH Hs]; [apply inv_init|].
  apply (inv_step g l g' IH Hs).
Qed.

Lemma run_reachable ls g g' : reachable g -> run ls g = Some g' -> reachable g'.
Proof.
  revert g. induction ls as [|l ls IH]; intros g Hr H; simpl in H.
  - inversion H. subst. exact Hr.
  - destruct (step l g) as [g1|] eqn:Hs; [|discriminate].
    apply (IH g1); [|exact H]. apply (reach_step g l g1 Hr Hs).
Qed.

Lemma run_app ls1 ls2 g g1 g2 :
  run ls1 g = Some g1 -> run ls2 g1 = Some g2 -> run (ls1 ++ ls2) g = Some g2.
Proof.
  revert g. induction ls1 as [|l ls1 IH]; intros g H1 H2; simpl in *.
  - inversion H1. subst. exact H2.
  - destruct (step l g) as [g0|]; [|discriminate]. apply IH; assumption.
Qed.

(** ** Progress: a run can always be brought to its end *)

(** The statements a worker has left, and the work left in a state. *)
Definition steps_left (wk : worker) : nat :=
  match wk with
  | AtStart => 3
  | Reading rest _ => length rest + 4
  | AtWait _ => 3
  | PutFinished _ => 2
  | PutFailed => 2
  | PutSentinel => 1
  end.

Definition work (g : gui) : nat :=
  2 * list_sum (map steps_left (threads g))
  + length (output_queue g) + (if polling g then 0 else 1).

Lemma no_sentinel_in_texts (a : list string) (l : list item) :
  map Some a <> l ++ [None].
Proof.
  revert l. induction a as [|x a IH]; intros [|y l] H; simpl in H;
    try discriminate.
  inversion H as [[Hx Ha]]. apply (IH l Ha).
Qed.

(** In a running state some step is enabled that ends the run or leaves
    less work, and that keeps the record of the child. *)
Lemma progress_step g :
  inv g -> running g = true ->
  exists l g1,
    step l g = Some g1
    /\ (forall c, run_child g = Some c -> run_child g1 = Some c)
    /\ (running g1 = false \/ (running g1 = true /\ (work g1 < work g)%nat)).
Proof.
  intros (Ht & Ha & Hf) Hr.
  destruct g as [ap rn sv rb lg qu tm th dl pl rc pg].
  unfold flow in Hf. simpl in *. subst rn. specialize (Ha eq_refl).
  destruct th as [|wk [|wk' ths]].
  - destruct Hf as (c0 & Hc & Heq). destruct pl.
    + exists PollGet. destruct qu as [|[message|] q].
      * exfalso. rewrite app_nil_r in Heq.
        apply (no_sentinel_in_texts lg (map Some (output c0))). exact Heq.
      * eexists. split; [reflexivity|]. split; [intros c H; exact H|].
        right. split; [reflexivity|]. unfold work. simpl. lia.
      * eexists. split; [reflexivity|]. split; [intros c H; exact H|].
        left. reflexivity.
    + exists TimerFires. subst tm.
      eexists. split; [reflexivity|]. split; [intros c H; exact H|].
      right. split; [reflexivity|]. unfold work. simpl. lia.
  - exists (WorkerStep 0 NotStarted).
    destruct wk as [|rest rcode|rcode|rcode| |].
    + destruct Hf as (Hn & _ & _). destruct ap as [path|]; [|congruence].
      eexists. split; [reflexivity|].
      split; [intros c H; simpl in *; congruence|].
      right. split; [reflexivity|]. unfold work. simpl. lia.
    + destruct rest as [|line rest];
        (eexists; split; [reflexivity|]; split; [intros c H; exact H|];
         right; split; [reflexivity|]; unfold work; simpl;
         rewrite ?length_app; simpl; lia).
    + eexists. split; [reflexivity|]. split; [intros c H; exact H|].
      right. split; [reflexivity|]. unfold work. simpl. lia.
    + eexists. split; [reflexivity|]. split; [intros c H; exact H|].
      right. split; [reflexivity|]. unfold work. simpl.
      rewrite length_app. simpl. lia.
    + eexists. split; [reflexivity|]. split; [intros c H; exact H|].
      right. split; [reflexivity|]. unfold work. simpl.
      rewrite length_app. simpl. lia.
    + eexists. split; [reflexivity|]. split; [intros c H; exact H|].
      right. split; [reflexivity|]. unfold work. simpl.
      rewrite length_app. simpl. lia.
  - destruct wk; contradiction.
Qed.

Lemma progress n :
  forall g,
    (work g < n)%nat -> inv g -> running g = true ->
    exists ls g',
      run ls g = Some g' /\ running g' = false
      /\ (forall c, run_child g = Some c -> run_child g' = Some c).
Proof.
  induction n as [|n IH]; intros g Hw Hinv Hr; [lia|].
  destruct (progress_step g Hinv Hr) as (l & g1 & Hs & Hc & [Hdone | [Hr1 Hless]]).
  - exists [l], g1. simpl. rewrite Hs. repeat split; assumption.
  - destruct (IH g1 ltac:(lia) (inv_step g l g1 Hinv Hs) Hr1)
      as (ls & g' & Hrun & Hend & Hc').
    exists (l :: ls), g'. simpl. rewrite Hs.
    split; [exact Hrun|]. split; [exact Hend|].
    intros c H. apply Hc', Hc, H.
Qed.

(** ** The log follows the child *)

(** What the workers of a state still owe to the queue. *)
Definition owed_all (g : gui) : list item := concat (map owed (threads g)).

Lemma flow_order g c :
  inv g -> run_child g = Some c ->
  map Some (log_text g) ++ output_queue g ++ owed_all g
  = map Some (output c) ++ (if running g then [None] else []).
Proof.
  intros (_ & _ & Hf) Hc. unfold flow in Hf. unfold owed_all.
  destruct (running g); destruct (threads g) as [|wk [|wk' ths]];
    try contradiction; try (destruct wk; contradiction); simpl.
  - destruct Hf as (c0 & Hc0 & Heq). rewrite app_nil_r.
    rewrite Hc in Hc0. inversion Hc0. subst c0. exact Heq.
  - rewrite app_nil_r.
    destruct wk; try (destruct Hf as (Hn & _); congruence);
      destruct Hf as (c0 & Hc0 & Heq); rewrite Hc in Hc0;
      inversion Hc0; subst c0; exact Heq.
  - destruct Hf as (-> & ->). rewrite Hc. simpl. rewrite !app_nil_r.
    reflexivity.
Qed.

Lemma flow_complete g c :
  inv g -> run_child g = Some c -> running g = false -> log_text g = output c.
Proof.
  intros (_ & _ & Hf) Hc Hr. unfold flow in Hf. rewrite Hr in Hf.
  destruct (threads g); [|contradiction].
  destruct Hf as (_ & ->). rewrite Hc. reflexivity.
Qed.



(** A run in which the child writes two lines and exits with 0, stopped
    after the worker put the first line and the poll took it. *)
Definition half_way : list label :=
  [SelectFile "take1.wav"; ClickRun true true;
   WorkerStep 0 (Started ["one"%string; "two"%string] 0);
   WorkerStep 0 NotStarted; TimerFires; PollGet].

Definition half_way_state : gui := default init (run half_way init).

Lemma half_way_run : run half_way init = Some half_way_state.
Proof. vm_compute. reflexivity. Qed.


(** ** One analysis at a time *)

Lemma inv_one_thread g :
  inv g ->
  (length (threads g) <= 1)%nat
  /\ (active_children g <= 1)%nat
  /\ (threads g <> [] -> running g = true).
Proof.
  intros (_ & _ & Hf). unfold flow in Hf. unfold active_children.
  destruct (running g); destruct (threads g) as [|wk [|wk' ths]];
    try contradiction; try (destruct wk; contradiction); simpl.
  - repeat split; try lia.
  - repeat split; try lia. destruct (alive wk); simpl; lia.
  - repeat split; try lia. intros H. congruence.
Qed.

Lemma run_analysis_while_running se ae g :
  running g = true ->
  threads (run_analysis se ae g) = threads g
  /\ running (run_analysis se ae g) = true.
Proof.
  intros Hr. unfold run_analysis.
  destruct (negb se); [destruct g; split; [reflexivity | exact Hr]|].
  destruct (audio_path g) as [[|c path]|];
    try (destruct g; split; [reflexivity | exact Hr]).
  rewrite Hr. split; [reflexivity | exact Hr].
Qed.

Lemma run_analysis_spawns se ae g :
  threads (run_analysis se ae g) <> threads g ->
  running g = false
  /\ running (run_analysis se ae g) = true
  /\ run_button (run_analysis se ae g) = disabled
  /\ threads (run_analysis se ae g) = threads g ++ [AtStart].
Proof.
  unfold run_analysis. intros H.
  destruct (negb se); [destruct g; simpl in H; congruence|].
  destruct (audio_path g) as [[|c path]|];
    try (destruct g; simpl in H; congruence).
  destruct (running g) eqn:Hr; [congruence|].
  destruct (negb ae); [destruct g; simpl in H; congruence|].
  destruct g; simpl in *. repeat split.
Qed.

Lemma worker_step_running c wk g :
  running (fst (worker_step c wk g)) = running g.
Proof.
  destruct wk as [|[|line rest] rc|rc|rc| |]; simpl;
    try (destruct g; reflexivity).
  destruct (audio_path g); [destruct c|]; destruct g; reflexivity.
Qed.

Lemma running_cleared_by_sentinel g l g' :
  inv g ->
  step l g = Some g' ->
  running g = true ->
  running g' = false ->
  l = PollGet
  /\ (exists q, output_queue g = None :: q)
  /\ threads g = []
  /\ run_button g' = normal.
Proof.
  intros Hinv Hs Hr Hr'. destruct l as [path|se ae| | |i c]; simpl in Hs.
  - exfalso. destruct (polling g); [discriminate|]. inversion Hs. subst g'.
    unfold select_file in Hr'.
    destruct (PyStr.truthy path); destruct g; simpl in *; congruence.
  - exfalso. destruct (polling g); [discriminate|].
    destruct (run_button g); [|discriminate]. inversion Hs. subst g'.
    destruct (run_analysis_while_running se ae g Hr) as [_ H]. congruence.
  - exfalso. destruct (polling g); [discriminate|].
    destruct (timers g); [discriminate|]. inversion Hs. subst g'.
    destruct g; simpl in *; congruence.
  - destruct (polling g) eqn:Hp; [|discriminate]. inversion Hs. subst g'.
    clear Hs. split; [reflexivity|].
    destruct Hinv as (_ & _ & Hf). unfold flow in Hf. unfold poll_get in *.
    rewrite Hr in Hf.
    destruct (output_queue g) as [|[message|] q] eqn:Hq.
    + exfalso. destruct g; simpl in *; congruence.
    + exfalso. destruct g; simpl in *; congruence.
    + split; [exists q; reflexivity|].
      destruct (threads g) as [|wk [|wk' ths]] eqn:Hth.
      * split; [reflexivity|]. destruct g; reflexivity.
      * exfalso. pose proof (owed_nonempty wk) as Hne.
        destruct wk; try (destruct Hf as (_ & _ & Hf); discriminate);
          destruct Hf as (c & Hc & Heq);
          apply sentinel_last in Heq; destruct Heq as [_ Heq];
          apply app_eq_nil in Heq; destruct Heq as [_ Heq];
          (apply Hne; [discriminate | exact Heq]).
      * destruct wk; contradiction.
  - exfalso. destruct (threads g !! i) as [wk|]; [|discriminate].
    destruct (worker_step c wk g) as [g1 next] eqn:Hw.
    inversion Hs. subst g'. clear Hs.
    pose proof (worker_step_running c wk g) as H. rewrite Hw in H.
    simpl in H. destruct g1; simpl in *. congruence.
Qed.

(** C10, amended.  In every reachable state there is at most one worker
    thread and at most one live child process, and a worker exists only
    while the running flag is set.  [run_analysis] called while the flag
    is set returns without starting a thread.  When [run_analysis] starts
    a thread, the flag was clear, and the thread is added at its first
    statement with the flag already set and the Run button disabled.  The
    flag is cleared only by the turn of [_poll_queue] that takes the
    sentinel from the queue, after the worker has returned, and that turn
    enables the Run button. *)
Theorem one_analysis_at_a_time (g : gui) :
  reachable g ->
  ((length (threads g) <= 1)%nat
   /\ (active_children g <= 1)%nat
   /\ (threads g <> [] -> running g = true))
  /\ (forall se ae,
        running g = true ->
        threads (run_analysis se ae g) = threads g
        /\ running (run_analysis se ae g) = true)
  /\ (forall se ae,
        threads (run_analysis se ae g) <> threads g ->
        running g = false
        /\ running (run_analysis se ae g) = true
        /\ run_button (run_analysis se ae g) = disabled
        /\ threads (run_analysis se ae g) = threads g ++ [AtStart])
  /\ (forall l g',
        step l g = Some g' ->
        running g = true ->
        running g' = false ->
        l = PollGet
        /\ (exists q, output_queue g = None :: q)
        /\ threads g = []
        /\ run_button g' = normal).
Proof.
  intros Hreach. pose proof (reachable_inv g Hreach) as Hinv.
  split; [apply inv_one_thread; exact Hinv|].
  split; [intros se ae; apply run_analysis_while_running|].
  split; [intros se ae; apply run_analysis_spawns|].
  intros l g'. apply running_cleared_by_sentinel. exact Hinv.
Qed.

(** C10 amended, in the state in which the child of a run is alive: a
    second click on Run starts nothing. *)
Lemma one_analysis_at_a_time_witness :
  reachable half_way_state
  /\ running half_way_state = true
  /\ active_children half_way_state = 1%nat
  /\ threads (run_analysis true true half_way_state) = threads half_way_state
  /\ running (run_analysis true true half_way_state) = true.
Proof.
  assert (Hr : reachable half_way_state)
    by (apply (run_reachable half_way init _ reach_init half_way_run)).
  split; [exact Hr|]. split; [reflexivity|]. split; [reflexivity|].
  apply (proj1 (proj2 (one_analysis_at_a_time half_way_state Hr))
           true true eq_refl).
Defined.

(** C10 as stated fails for the Run button: selecting a file while a run
    is on enables the button again, with the flag still set and before any
    sentinel was put on the queue. *)
Lemma run_button_enabled_while_running :
  let g := default init
             (run [SelectFile "take1.wav"; ClickRun true true;
                   SelectFile "take2.wav"] init) in
  run [SelectFile "take1.wav"; ClickRun true true] init
  = Some (set_threads [AtStart]
            (set_run_button disabled
               (set_running true (select_file "take1.wav" init))))
  /\ step (SelectFile "take2.wav")
       (set_threads [AtStart]
          (set_run_button disabled
             (set_running true (select_file "take1.wav" init)))) = Some g
  /\ running g = true
  /\ run_button g = normal
  /\ output_queue g = []
  /\ threads g = [AtStart].
Proof. vm_compute. repeat split; reflexivity. Qed.

(** ** What the Run button starts *)

(** The command-line tool never reads its arguments. *)
Lemma main_ignores_argv loads dumps e args w :
  Smoke.main loads dumps
    (Smoke.mk_env (Smoke.api_key e) args (Smoke.cwd e) (Smoke.clock e) (Smoke.model e)) w
  = Smoke.main loads dumps e w.
Proof. destruct e. reflexivity. Qed.

Definition words (cmd : list arg) : list string :=
  omap (fun a => match a with Arg s => Some s | SysExecutable => None end) cmd.

(** C4, evaluated.  With take1.wav selected, the command the worker gives
    to [Popen] names the script run.py and passes the selected path; when
    run.py is not there, the click shows a message box and starts nothing.
    The command-line tool of the repository, started with the arguments of
    that command in a directory that holds both sample.wav and take1.wav,
    sends the bytes of sample.wav to the model. *)
Lemma run_button_starts_other_script :
  option_map popen_log
    (run [SelectFile "take1.wav"; ClickRun true true;
          WorkerStep 0 (Started [] 0)] init)
  = Some [[SysExecutable; Arg "run.py"; Arg "--audio"; Arg "take1.wav"]]
  /\ option_map (fun g => (threads g, dialogs g))
       (run [SelectFile "take1.wav"; ClickRun false true] init)
     = Some ([], [ShowError "Missing Script"])
  /\ (let e := Smoke.mk_env (Some "sk-test"%string)
                 (words [SysExecutable; Arg "run.py"; Arg "--audio"; Arg "take1.wav"])
                 "/home/actor" (fun n => Smoke.mk_datetime 2025 3 9 7 5 n)
                 (fun _ => None) in
      let w := Smoke.mk_world
                 (<["take1.wav"%string := Smoke.File "ID3 take one"]>
                    (<["sample.wav"%string := Smoke.File "RIFF$"]> ∅)) [] [] 0 in
      Smoke.requests (snd (Smoke.main Json.loads Json.dumps e w))
      = [Smoke.Primary "wav" (Smoke.b64encode "RIFF$") 8000]
      /\ Smoke.b64encode "RIFF$" <> Smoke.b64encode "ID3 take one").
Proof.
  split; [vm_compute; reflexivity|]. split; [vm_compute; reflexivity|].
  split; [vm_compute; reflexivity | vm_compute; discriminate].
Qed.

End Gui.

(* ===================================================================== *)
(** * More of audio_analysis_smoke.py: the scanner and the parser         *)
(* ===================================================================== *)

Module SmokeParse.

Import PyStr.
Import Smoke.

(** ** Text around a block *)

Lemma find_app_some c s t i : find c s = Some i -> find c (s ++ t) = Some i.
Proof.
  revert i. induction s as [|d s IH]; intros i H; simpl in H; [discriminate|].
  rewrite app_cons. simpl. destruct (ch_eqb d c); [exact H|].
  destruct (find c s) as [j|]; [|discriminate].
  rewrite (IH j eq_refl). exact H.
Qed.

Lemma find_app_none c p s :
  count c p = O ->
  find c (p ++ s) = match find c s with
                    | Some i => Some (len p + i)%nat
                    | None => None
                    end.
Proof.
  induction p as [|d p IH]; intros H; simpl in H.
  - change (EmptyString ++ s)%string with s. destruct (find c s); reflexivity.
  - rewrite app_cons. simpl. destruct (ch_eqb d c); [discriminate|].
    rewrite (IH H). destruct (find c s); reflexivity.
Qed.

Lemma drop_app_cons n s t c rest :
  drop n s = String c rest -> drop n (s ++ t) = String c (rest ++ t).
Proof.
  revert s. induction n as [|n IH]; intros [|d s] H; simpl in H;
    try discriminate.
  - rewrite H. reflexivity.
  - rewrite app_cons. simpl. apply IH. exact H.
Qed.

Lemma drop_len_app p s n : drop (len p + n) (p ++ s) = drop n s.
Proof.
  induction p as [|d p IH]; [reflexivity|].
  rewrite app_cons. simpl. exact IH.
Qed.

Lemma take_app_le n s t : (n <= len s)%nat -> take n (s ++ t) = take n s.
Proof.
  revert s. induction n as [|n IH]; intros s H.
  - rewrite !take_0. reflexivity.
  - destruct s as [|d s]; [simpl in H; lia|].
    rewrite app_cons. simpl. f_equal. apply IH. simpl in H. unfold len in *. lia.
Qed.

(** The loop does not look beyond the brace at which it returns. *)
Lemma block_end_app rest t :
  forall i d j, block_end rest i d = Some j -> block_end (rest ++ t) i d = Some j.
Proof.
  induction rest as [|c rest IH]; intros i d j H; simpl in H; [discriminate|].
  rewrite app_cons. simpl.
  destruct (ch_eqb c "{"); [apply IH; exact H|].
  destruct (ch_eqb c "}"); [|apply IH; exact H].
  destruct (d - 1 =? 0); [exact H | apply IH; exact H].
Qed.

Lemma block_end_take rest :
  forall i d m,
    block_end rest i d = Some (i + m)%nat ->
    block_end (take (S m) rest) i d = Some (i + m)%nat.
Proof.
  induction rest as [|c rest IH]; intros i d m H; simpl in H; [discriminate|].
  change (take (S m) (String c rest)) with (String c (take m rest)). simpl.
  assert (Hrec : forall d', block_end rest (S i) d' = Some (i + m)%nat ->
                            block_end (take m rest) (S i) d' = Some (i + m)%nat).
  { intros d' H'. destruct m as [|m].
    - exfalso. clear IH H.
      assert (G : forall r k d0 j, block_end r k d0 = Some j -> (k <= j)%nat).
      { induction r as [|x r IHr]; intros k d0 j0 Hb; simpl in Hb; [discriminate|].
        destruct (ch_eqb x "{"); [apply IHr in Hb; lia|].
        destruct (ch_eqb x "}"); [|apply IHr in Hb; lia].
        destruct (d0 - 1 =? 0); [inversion Hb; lia | apply IHr in Hb; lia]. }
      apply G in H'. lia.
    - replace (i + S m)%nat with (S i + m)%nat in * by lia.
      apply IH. exact H'. }
  destruct (ch_eqb c "{"); [apply Hrec; exact H|].
  destruct (ch_eqb c "}"); [|apply Hrec; exact H].
  destruct (d - 1 =? 0); [exact H | apply Hrec; exact H].
Qed.

Lemma block_end_shift rest k :
  forall i d,
    block_end rest (k + i) d
    = match block_end rest i d with
      | Some j => Some (k + j)%nat
      | None => None
      end.
Proof.
  induction rest as [|c rest IH]; intros i d; simpl; [reflexivity|].
  replace (S (k + i)) with (k + S i)%nat by lia.
  destruct (ch_eqb c "{"); [apply IH|].
  destruct (ch_eqb c "}"); [|apply IH].
  destruct (d - 1 =? 0); [reflexivity | apply IH].
Qed.

(** The block as a function of the text after the first opening brace. *)
Lemma block_of_rest s start rest :
  find "{" s = Some start ->
  drop start s = String "{" rest ->
  _balanced_json_block s =
    match block_end rest 1 1 with
    | Some j => Some (String "{" (take j rest))
    | None => None
    end.
Proof.
  intros Hf Hd. rewrite (balanced_json_block_unfold s start rest Hf Hd).
  replace (S start) with (start + 1)%nat by lia.
  rewrite block_end_shift.
  destruct (block_end rest 1 1) as [j|]; [|reflexivity].
  replace (start + j - start)%nat with j by lia. reflexivity.
Qed.

(** X1.  Text appended to a reply does not change the block found in it:
    when the scanner finds a block in [s], it finds the same block in
    [s ++ t] for every [t]. *)
Theorem balanced_json_block_app (s t b : string) :
  _balanced_json_block s = Some b ->
  _balanced_json_block (s ++ t) = Some b.
Proof.
  intros Hb. unfold _balanced_json_block in Hb.
  destruct (find "{" s) as [start|] eqn:Hf; [|discriminate].
  destruct (find_some _ _ _ Hf) as [_ [rest Hd]].
  assert (Hb' : _balanced_json_block s = Some b).
  { unfold _balanced_json_block. rewrite Hf. exact Hb. }
  clear Hb. rewrite (block_of_rest s start rest Hf Hd) in Hb'.
  rewrite (block_of_rest (s ++ t) start (rest ++ t)
             (find_app_some _ _ _ _ Hf) (drop_app_cons _ _ _ _ _ Hd)).
  destruct (block_end rest 1 1) as [j|] eqn:E; [|discriminate].
  rewrite (block_end_app rest t 1 1 j E).
  destruct (block_end_some rest 1 1 j ltac:(lia) E) as (m & -> & Hg & _).
  rewrite take_app_le; [exact Hb'|].
  pose proof (get_lt_len _ _ _ Hg). lia.
Qed.

Lemma balanced_json_block_app_witness :
  _balanced_json_block ("ok {a{b}}" ++ " and {more") = Some "{a{b}}"%string.
Proof. apply (balanced_json_block_app "ok {a{b}}" " and {more"). reflexivity. Defined.

(** X2.  Text without an opening brace in front of a reply does not
    change the result of the scanner. *)
Theorem balanced_json_block_prose (p s : string) :
  count "{" p = O ->
  _balanced_json_block (p ++ s) = _balanced_json_block s.
Proof.
  intros Hp. destruct (find "{" s) as [i|] eqn:Hf.
  - destruct (find_some _ _ _ Hf) as [_ [rest Hd]].
    assert (Hf' : find "{" (p ++ s) = Some (len p + i)%nat).
    { rewrite (find_app_none _ _ _ Hp), Hf. reflexivity. }
    assert (Hd' : drop (len p + i) (p ++ s) = String "{" rest).
    { rewrite drop_len_app. exact Hd. }
    rewrite (block_of_rest _ _ _ Hf' Hd'), (block_of_rest _ _ _ Hf Hd).
    reflexivity.
  - unfold _balanced_json_block.
    rewrite (find_app_none _ _ _ Hp), Hf. reflexivity.
Qed.

Lemma balanced_json_block_prose_witness :
  _balanced_json_block ("Here you go: } " ++ "{a} tail")
  = _balanced_json_block "{a} tail".
Proof. apply balanced_json_block_prose. reflexivity. Defined.

(** X3.  The scanner is idempotent: a block it returns is its own block. *)
Theorem balanced_json_block_idempotent (s b : string) :
  _balanced_json_block s = Some b ->
  _balanced_json_block b = Some b.
Proof.
  intros Hb. unfold _balanced_json_block in Hb.
  destruct (find "{" s) as [start|] eqn:Hf; [|discriminate].
  destruct (find_some _ _ _ Hf) as [_ [rest Hd]].
  assert (Hb' : _balanced_json_block s = Some b).
  { unfold _balanced_json_block. rewrite Hf. exact Hb. }
  clear Hb. rewrite (block_of_rest s start rest Hf Hd) in Hb'.
  destruct (block_end rest 1 1) as [j|] eqn:E; [|discriminate].
  destruct (block_end_some rest 1 1 j ltac:(lia) E) as (m & -> & Hg & _).
  change (1 + m)%nat with (S m) in Hb'.
  assert (Hbeq : b = String "{" (take (S m) rest)) by congruence.
  subst b.
  rewrite (block_of_rest (String "{" (take (S m) rest)) 0 (take (S m) rest)
             eq_refl eq_refl).
  rewrite (block_end_take rest 1 1 m E).
  change (1 + m)%nat with (S m). rewrite take_take by lia. reflexivity.
Qed.

Lemma balanced_json_block_idempotent_witness :
  _balanced_json_block "{a{b}}" = Some "{a{b}}"%string.
Proof.
  apply (balanced_json_block_idempotent "ok {a{b}} {c}"). reflexivity.
Defined.

(** ** The fenced-code pattern *)

Lemma app_assoc_str (a b c : string) : ((a ++ b) ++ c = a ++ (b ++ c))%string.
Proof.
  induction a as [|x a IH]; [reflexivity|].
  rewrite !app_cons. f_equal. exact IH.
Qed.

Lemma skip_space_suffix s : exists a, s = (a ++ Fence.skip_space s)%string.
Proof.
  assert (H : forall n s, (len s <= n)%nat ->
                          exists a, s = (a ++ Fence.skip_space s)%string).
  { clear s. induction n as [|n IH]; intros s Hn.
    - destruct s; [exists EmptyString; reflexivity | simpl in Hn; lia].
    - destruct s as [|a r1]; [exists EmptyString; reflexivity|].
      simpl. unfold len in Hn. simpl in Hn.
      destruct (Fence.space1 a).
      + destruct (IH r1 ltac:(unfold len; lia)) as [x Hx].
        exists (String a x). rewrite app_cons. f_equal. exact Hx.
      + destruct r1 as [|b r2]; [exists EmptyString; reflexivity|].
        simpl in Hn. destruct (Fence.space2 a b).
        * destruct (IH r2 ltac:(unfold len; lia)) as [x Hx].
          exists (String a (String b x)). rewrite !app_cons. do 2 f_equal. exact Hx.
        * destruct r2 as [|c r3]; [exists EmptyString; reflexivity|].
          simpl in Hn. destruct (Fence.space3 a b c).
          -- destruct (IH r3 ltac:(unfold len; lia)) as [x Hx].
             exists (String a (String b (String c x))).
             rewrite !app_cons. do 3 f_equal. exact Hx.
          -- exists EmptyString. reflexivity. }
  apply (H (len s)). lia.
Qed.

Lemma eat_letter_suffix l s r : Fence.eat_letter l s = Some r -> exists a, s = (a ++ r)%string.
Proof.
  destruct s as [|c s]; simpl; [discriminate|].
  destruct (ch_eqb (lower_ch c) l); [|discriminate].
  intros H. inversion H. subst. exists (String c EmptyString). reflexivity.
Qed.

Lemma eat_s_suffix s r : Fence.eat_s s = Some r -> exists a, s = (a ++ r)%string.
Proof.
  unfold Fence.eat_s. destruct (Fence.eat_letter "s" s) as [r0|] eqn:E.
  - intros H. inversion H. subst. apply (eat_letter_suffix _ _ _ E).
  - destruct s as [|a [|b r1]]; try discriminate.
    destruct ((Fence.code a =? 197) && (Fence.code b =? 191))%N; [|discriminate].
    intros H. inversion H. subst.
    exists (String a (String b EmptyString)). reflexivity.
Qed.

Lemma skip_json_suffix s : exists a, s = (a ++ Fence.skip_json s)%string.
Proof.
  unfold Fence.skip_json.
  destruct (Fence.eat_letter "j" s) as [r1|] eqn:E1; [|exists EmptyString; reflexivity].
  destruct (Fence.eat_s r1) as [r2|] eqn:E2; [|exists EmptyString; reflexivity].
  destruct (Fence.eat_letter "o" r2) as [r3|] eqn:E3; [|exists EmptyString; reflexivity].
  destruct (Fence.eat_letter "n" r3) as [r4|] eqn:E4; [|exists EmptyString; reflexivity].
  destruct (eat_letter_suffix _ _ _ E1) as [a1 ->].
  destruct (eat_s_suffix _ _ E2) as [a2 ->].
  destruct (eat_letter_suffix _ _ _ E3) as [a3 ->].
  destruct (eat_letter_suffix _ _ _ E4) as [a4 ->].
  exists (a1 ++ a2 ++ a3 ++ a4)%string. rewrite !app_assoc_str. reflexivity.
Qed.

Lemma drop_suffix n s : exists a, s = (a ++ drop n s)%string.
Proof. exists (take n s). symmetry. apply take_drop. Qed.

Lemma lazy_body_cons c r :
  Fence.lazy_body (String c r)
  = if ch_eqb c "}" && startswith Fence.fence (Fence.skip_space r)
    then Some (String c EmptyString)
    else match Fence.lazy_body r with
         | Some b => Some (String c b)
         | None => None
         end.
Proof. reflexivity. Qed.

Lemma lazy_body_shape s b :
  Fence.lazy_body s = Some b ->
  last b = Some "}"%char /\ exists post, s = (b ++ post)%string.
Proof.
  revert b. induction s as [|c r IH]; intros b H; [discriminate|].
  rewrite lazy_body_cons in H.
  destruct (ch_eqb c "}" && startswith Fence.fence (Fence.skip_space r)) eqn:E.
  - inversion H; subst. apply andb_true_iff in E. destruct E as [E _].
    apply ch_eqb_eq in E. subst c. split; [reflexivity|].
    exists r. reflexivity.
  - destruct (Fence.lazy_body r) as [b0|]; [|discriminate].
    inversion H; subst. destruct (IH b0 eq_refl) as [Hl [post ->]].
    split.
    + simpl. destruct b0; [discriminate | exact Hl].
    + exists post. reflexivity.
Qed.

Lemma match_here_shape s g :
  Fence.match_here s = Some g ->
  String.get 0 g = Some "{"%char /\ last g = Some "}"%char
  /\ exists pre post, s = (pre ++ g ++ post)%string.
Proof.
  unfold Fence.match_here. destruct (startswith Fence.fence s); [|discriminate].
  destruct (drop_suffix 3 s) as [a1 H1].
  destruct (skip_json_suffix (drop 3 s)) as [a2 H2].
  destruct (skip_space_suffix (Fence.skip_json (drop 3 s))) as [a3 H3].
  destruct (Fence.skip_space (Fence.skip_json (drop 3 s))) as [|c body] eqn:E;
    [discriminate|].
  destruct (ch_eqb c "{") eqn:Ec; [|discriminate].
  destruct (Fence.lazy_body body) as [b|] eqn:Eb; [|discriminate].
  intros H. inversion H; subst. apply ch_eqb_eq in Ec. subst c.
  destruct (lazy_body_shape _ _ Eb) as [Hl [post ->]].
  split; [reflexivity|]. split.
  - simpl. destruct b; [discriminate | exact Hl].
  - exists (a1 ++ a2 ++ a3)%string, post.
    rewrite H1 at 1. rewrite H2 at 1. rewrite H3 at 1.
    rewrite !app_assoc_str. reflexivity.
Qed.

Lemma search_in_text text g :
  Fence.search text = Some g ->
  String.get 0 g = Some "{"%char
  /\ last g = Some "}"%char
  /\ exists pre post, text = (pre ++ g ++ post)%string.
Proof.
  induction text as [|c r IH]; simpl.
  - intros H. discriminate.
  - destruct (Fence.match_here (String c r)) as [g0|] eqn:E.
    + intros H. inversion H; subst. apply (match_here_shape _ _ E).
    + intros H. destruct (IH H) as (H0 & Hl & pre & post & ->).
      split; [exact H0|]. split; [exact Hl|].
      exists (String c pre), post. reflexivity.
Qed.

(** X4.  What the fenced-code pattern captures is a part of the text that
    starts with an opening and ends with a closing brace. *)
Theorem fence_search_shape (text g : string) :
  Fence.search text = Some g ->
  String.get 0 g = Some "{"%char
  /\ last g = Some "}"%char
  /\ exists pre post, text = (pre ++ g ++ post)%string.
Proof.
  revert g. induction text as [|c r IH]; intros g; simpl.
  - intros H. discriminate.
  - destruct (Fence.match_here (String c r)) as [g0|] eqn:E.
    + intros H. inversion H; subst. apply (match_here_shape _ _ E).
    + intros H. destruct (IH g H) as (H0 & Hl & pre & post & ->).
      split; [exact H0|]. split; [exact Hl|].
      exists (String c pre), post. reflexivity.
Qed.

Lemma fence_search_shape_witness :
  String.get 0 "{a}" = Some "{"%char
  /\ last "{a}" = Some "}"%char
  /\ exists pre post, "see ```json {a} ``` end"%string = (pre ++ "{a}" ++ post)%string.
Proof. apply fence_search_shape. vm_compute. reflexivity. Defined.

(** ** What the parser returns and what it raises *)

Lemma fence_search_needs_brace text g :
  Fence.search text = Some g -> count "{" text <> O.
Proof.
  intros H. destruct (search_in_text text g H) as (H0 & _ & pre & post & ->).
  rewrite !count_app. destruct g as [|c g]; [discriminate|].
  simpl in H0. inversion H0. subst c. simpl. lia.
Qed.

(** X5.  A value that [parse_json_or_raise] returns is the value of
    [json.loads] on the whole text; or, the text not being JSON, on its
    balanced block; or, there being no block either, on the group of the
    fenced-code pattern. *)
Theorem parse_json_sound (loads : string -> option value) (text : string) (v : value) :
  parse_json_or_raise loads text = Return v ->
  loads text = Some v
  \/ (loads text = None
      /\ exists b, _balanced_json_block text = Some b /\ loads b = Some v)
  \/ (loads text = None /\ _balanced_json_block text = None
      /\ exists g, Fence.search text = Some g /\ loads g = Some v).
Proof.
  unfold parse_json_or_raise, parse_json_steps.
  destruct (loads text) as [v0|] eqn:Hl.
  - simpl. intros H. inversion H. left. reflexivity.
  - destruct (_balanced_json_block text) as [b|] eqn:Hb.
    + pose proof (balanced_json_block_nonempty _ _ Hb) as Ht.
      destruct b as [|c b]; [discriminate|]. simpl. unfold loads_or_raise.
      destruct (loads (String c b)) as [v1|] eqn:Hlb; [|discriminate].
      intros H. inversion H. subst. right. left.
      split; [reflexivity|]. eexists. split; [reflexivity | exact Hlb].
    + simpl. destruct (Fence.search text) as [g|] eqn:Hs; [|discriminate].
      unfold loads_or_raise. destruct (loads g) as [v1|] eqn:Hlg; [|discriminate].
      intros H. inversion H. subst. right. right.
      split; [reflexivity|]. split; [reflexivity|].
      exists g. split; [reflexivity | exact Hlg].
Qed.

Lemma parse_json_sound_witness :
  loads "see {} here" = Some (JObject [])
  \/ (loads "see {} here" = None
      /\ exists b, _balanced_json_block "see {} here" = Some b
                   /\ loads b = Some (JObject []))
  \/ (loads "see {} here" = None /\ _balanced_json_block "see {} here" = None
      /\ exists g, Fence.search "see {} here" = Some g
                   /\ loads g = Some (JObject [])).
Proof. apply parse_json_sound. vm_compute. reflexivity. Defined.

(** X6.  [parse_json_or_raise] raises its own [ValueError] exactly when the
    text is not JSON, has no balanced block and no match of the
    fenced-code pattern; a text without an opening brace that is not JSON
    always ends there. *)
Theorem parse_json_value_error (loads : string -> option value) (text : string) :
  (parse_json_or_raise loads text
   = Raise (ValueError "Could not parse JSON from model output.")
   <-> loads text = None /\ _balanced_json_block text = None
       /\ Fence.search text = None)
  /\ (count "{" text = O -> loads text = None ->
      parse_json_or_raise loads text
      = Raise (ValueError "Could not parse JSON from model output.")).
Proof.
  assert (Hiff :
    parse_json_or_raise loads text
    = Raise (ValueError "Could not parse JSON from model output.")
    <-> loads text = None /\ _balanced_json_block text = None
        /\ Fence.search text = None).
  { unfold parse_json_or_raise, parse_json_steps.
    destruct (loads text) as [v0|] eqn:Hl.
    - simpl. split; [discriminate | intros (H & _); discriminate].
    - destruct (_balanced_json_block text) as [b|] eqn:Hb.
      + pose proof (balanced_json_block_nonempty _ _ Hb) as Ht.
        destruct b as [|c b]; [discriminate|]. simpl. unfold loads_or_raise.
        destruct (loads (String c b)); split; try discriminate;
          intros (_ & H & _); discriminate.
      + simpl. destruct (Fence.search text) as [g|] eqn:Hs.
        * unfold loads_or_raise. destruct (loads g); split; try discriminate;
            intros (_ & _ & H); discriminate.
        * split; [intros _; repeat split | reflexivity]. }
  split; [exact Hiff|].
  intros Hc Hl. apply Hiff. split; [exact Hl|]. split.
  - unfold _balanced_json_block.
    rewrite (proj2 (find_none_count "{" text) Hc). reflexivity.
  - destruct (Fence.search text) as [g|] eqn:Hs; [|reflexivity].
    exfalso. apply (fence_search_needs_brace text g Hs). exact Hc.
Qed.

Lemma parse_json_value_error_witness :
  parse_json_or_raise loads "[1, 2] as requested"
  = Raise (ValueError "Could not parse JSON from model output.").
Proof.
  apply (proj2 (parse_json_value_error loads "[1, 2] as requested"));
    vm_compute; reflexivity.
Defined.

End SmokeParse.

(* ===================================================================== *)
(** * More of audio_analysis_smoke.py: the reply text and the time stamp  *)
(* ===================================================================== *)

Module SmokeText.

Import PyStr.
Import Smoke.

(** ** [extract_text_from_response] *)

(** A part of a list content: a [dict], with its ["text"] entry when that
    is a [str], or another object, with its [.text] attribute when that is
    a [str]. *)
Inductive part : Type :=
| DictPart (text : option string)
| ObjectPart (text : option string).

(** [msg.content]: a [str], a [list], or anything else ([None], missing). *)
Inductive content : Type :=
| ContentStr (s : string)
| ContentParts (parts : list part)
| ContentOther.

(** [resp.choices[0].message]: [audio_transcript] is [Some t] when
    [msg.audio] is truthy and has an attribute [transcript] whose value is
    [t] ([None] for Python's [None]). *)
Record message : Type := mk_message {
  msg_content : content;
  audio_transcript : option (option string)
}.

Definition part_text (p : part) : option string :=
  match p with
  | DictPart t => t
  | ObjectPart t => t
  end.

(** The result is a [str], or [None] when the transcript it falls back to
    is [None]. *)
Definition extract_text_from_response (msg : message) : option string :=
  let fallback :=
    match audio_transcript msg with
    | Some t => t
    | None => Some EmptyString
    end in
  match msg_content msg with
  | ContentStr s => if truthy (strip s) then Some (strip s) else fallback
  | ContentParts parts =>
      match omap part_text parts with
      | [] => fallback
      | texts =>
          Some (join newline
                  (map strip
                     (List.filter (fun t => truthy t && truthy (strip t)) texts)))
      end
  | ContentOther => fallback
  end.

Example extract_parts :
  extract_text_from_response
    (mk_message (ContentParts [DictPart (Some " {} "%string); ObjectPart None;
                               ObjectPart (Some "  "%string);
                               DictPart (Some "tail"%string)])
       (Some (Some "spoken"%string)))
  = Some ("{}" ++ newline ++ "tail")%string.
Proof. vm_compute. reflexivity. Qed.

Lemma join_blank (l : list string) :
  (forall t, In t l -> truthy t = true) ->
  (join newline l = EmptyString <-> l = []).
Proof.
  intros H. destruct l as [|x l]; [tauto|].
  split; [|discriminate]. intros Hj. exfalso.
  assert (Hx : truthy x = true) by (apply H; left; reflexivity).
  destruct x as [|c x]; [discriminate|].
  destruct l; simpl in Hj; [discriminate|].
  rewrite app_cons in Hj. discriminate.
Qed.

(** X7.  When the content of the reply is a list with at least one text
    part, [extract_text_from_response] does not look at the audio
    transcript, and it returns the empty string exactly when every text of
    the list is blank. *)
Theorem extract_text_parts_only
    (parts : list part) (tr1 tr2 : option (option string)) :
  omap part_text parts <> [] ->
  extract_text_from_response (mk_message (ContentParts parts) tr1)
  = extract_text_from_response (mk_message (ContentParts parts) tr2)
  /\ (extract_text_from_response (mk_message (ContentParts parts) tr1)
      = Some EmptyString
      <-> forall t, In t (omap part_text parts) -> truthy (strip t) = false).
Proof.
  intros Hne. unfold extract_text_from_response. simpl.
  destruct (omap part_text parts) as [|t0 texts] eqn:E; [congruence|].
  split; [reflexivity|].
  set (keep := fun t : string => truthy t && truthy (strip t)).
  assert (Hall : forall t, In t (map strip (List.filter keep (t0 :: texts))) ->
                           truthy t = true).
  { intros t Hin. apply in_map_iff in Hin. destruct Hin as (u & <- & Hu).
    apply filter_In in Hu. destruct Hu as [_ Hu]. unfold keep in Hu.
    apply andb_true_iff in Hu. tauto. }
  split.
  - intros H. inversion H as [Hj]. apply (join_blank _ Hall) in Hj.
    intros t Hin. destruct (truthy (strip t)) eqn:Et; [|reflexivity].
    exfalso. apply map_eq_nil in Hj.
    assert (Hk : In t (List.filter keep (t0 :: texts))).
    { apply filter_In. split; [exact Hin|]. unfold keep. rewrite Et.
      destruct t; [discriminate | reflexivity]. }
    rewrite Hj in Hk. destruct Hk.
  - intros H. f_equal. apply (join_blank _ Hall).
    assert (Hf : List.filter keep (t0 :: texts) = []).
    { clear Hall E Hne. induction (t0 :: texts) as [|u l IH]; [reflexivity|].
      simpl. unfold keep at 1. rewrite (H u (or_introl eq_refl)), andb_false_r.
      apply IH. intros t Ht. apply H. right. exact Ht. }
    rewrite Hf. reflexivity.
Qed.

Lemma extract_text_parts_only_witness :
  extract_text_from_response
    (mk_message (ContentParts [DictPart (Some "  "%string)]) (Some (Some "spoken"%string)))
  = extract_text_from_response
      (mk_message (ContentParts [DictPart (Some "  "%string)]) None)
  /\ (extract_text_from_response
        (mk_message (ContentParts [DictPart (Some "  "%string)])
           (Some (Some "spoken"%string)))
      = Some EmptyString
      <-> forall t, In t (omap part_text [DictPart (Some "  "%string)]) ->
                    truthy (strip t) = false).
Proof. apply extract_text_parts_only. discriminate. Defined.

(** X8.  [extract_text_from_response] returns [None] only by falling back
    to a transcript that is [None], and it falls back only when the
    content is a blank string, a list without a text part, or not a
    string or list at all. *)
Theorem extract_text_none (msg : message) :
  extract_text_from_response msg = None ->
  audio_transcript msg = Some None
  /\ match msg_content msg with
     | ContentStr s => truthy (strip s) = false
     | ContentParts parts => omap part_text parts = []
     | ContentOther => True
     end.
Proof.
  unfold extract_text_from_response.
  destruct msg as [c tr]. simpl.
  assert (Hfb : match tr with Some t => t | None => Some EmptyString end = None ->
                tr = Some None).
  { destruct tr as [[t|]|]; intros H; try discriminate. reflexivity. }
  destruct c as [s|parts|].
  - destruct (truthy (strip s)); [discriminate|].
    intros H. split; [apply Hfb; exact H | reflexivity].
  - destruct (omap part_text parts); [|discriminate].
    intros H. split; [apply Hfb; exact H | reflexivity].
  - intros H. split; [apply Hfb; exact H | exact I].
Qed.

Lemma extract_text_none_witness :
  audio_transcript (mk_message (ContentStr "   ") (Some None)) = Some None
  /\ truthy (strip "   ") = false.
Proof.
  apply (extract_text_none (mk_message (ContentStr "   ") (Some None))).
  vm_compute. reflexivity.
Defined.

(** ** The time stamp *)











End SmokeText.

(* ===================================================================== *)
(** * More of audio_analysis_smoke.py: what a run does to the world       *)
(* ===================================================================== *)

Module SmokeRuns.

Import PyStr.
Import Smoke.

(** ** Files a computation leaves alone *)













Section Frames.

Variable loads : string -> option value.
Variable dumps : value -> string.
Variable e : env.
Variable P : string -> Prop.

Definition raw_path (t : nat) : string :=
  ("analysis_result_raw_" ++ strftime (clock e t) ++ ".txt")%string.

Hypothesis not_json : forall t, ~ P (json_path e t).
Hypothesis not_raw_continuation : forall t, ~ P (raw_continuation_path e t).



Hypothesis not_raw : forall t, ~ P (raw_path t).




End Frames.





(** ** The raw text of an unparsable primary reply *)








(** ** Ends of a run *)

Lemma encode_audio_world e path w :
  snd (encode_audio_for_api e path w) = w.
Proof.
  unfold encode_audio_for_api. destruct (fs w !! path) as [n|]; [|reflexivity].
  destruct (negb _); [reflexivity|]. destruct n; reflexivity.
Qed.

Lemma encode_audio_sample e w fb w' :
  encode_audio_for_api e AUDIO_PATH w = (Next fb, w') ->
  exists data, fs w !! AUDIO_PATH = Some (File data)
               /\ fb = ("wav"%string, b64encode data) /\ w' = w.
Proof.
  unfold encode_audio_for_api. destruct (fs w !! AUDIO_PATH) as [n|]; [|discriminate].
  change (lstrip "." (lower (path_suffix AUDIO_PATH))) with "wav"%string.
  cbn [String.eqb Ascii.eqb Bool.eqb negb orb].
  destruct n as [|data]; [discriminate|].
  intros H. inversion H. subst. exists data. repeat split.
Qed.

Lemma main_no_audio loads dumps e w k :
  api_key e = Some k -> truthy k = true ->
  fs w !! AUDIO_PATH = None ->
  exists msg, main loads dumps e w = (Stop (SysExit (ExitMsg msg)), w).
Proof.
  intros Hk Ht Hf. unfold main. rewrite Hk.
  destruct k as [|c k]; [discriminate|].
  unfold bind at 1. unfold encode_audio_for_api. rewrite Hf.
  eexists. reflexivity.
Qed.

Lemma main_client_raises loads dumps e w k data :
  api_key e = Some k -> truthy k = true ->
  fs w !! AUDIO_PATH = Some (File data) ->
  model e (Primary "wav" (b64encode data) MAX_TOKENS_PRIMARY) = None ->
  main loads dumps e w
  = (Stop (Uncaught ClientError),
     asked (Primary "wav" (b64encode data) MAX_TOKENS_PRIMARY) w).
Proof.
  intros Hk Ht Hf Hm. unfold main. rewrite Hk.
  destruct k as [|c k]; [discriminate|].
  unfold bind at 1. unfold encode_audio_for_api. rewrite Hf.
  change (lstrip "." (lower (path_suffix AUDIO_PATH))) with "wav"%string.
  cbn [String.eqb Ascii.eqb Bool.eqb negb orb fst snd].
  unfold bind at 1. unfold call_model, send. cbn [fst snd]. rewrite Hm.
  reflexivity.
Qed.

(** X12.  Without an API key (unset or empty), and without the file
    [sample.wav], the run ends with a message and status 1 before any
    request: the world is left as it was.  When the client raises on the
    primary call, the run ends with that exception after the one request,
    and no file has been written. *)
Theorem main_stops_early
    (loads : string -> option value) (dumps : value -> string)
    (e : env) (w : world) :
  ((api_key e = None \/ api_key e = Some EmptyString) ->
   exists msg, main loads dumps e w = (Stop (SysExit (ExitMsg msg)), w))
  /\ (forall k, api_key e = Some k -> truthy k = true ->
        fs w !! AUDIO_PATH = None ->
        exists msg, main loads dumps e w = (Stop (SysExit (ExitMsg msg)), w))
  /\ (forall k data, api_key e = Some k -> truthy k = true ->
        fs w !! AUDIO_PATH = Some (File data) ->
        model e (Primary "wav" (b64encode data) MAX_TOKENS_PRIMARY) = None ->
        fst (main loads dumps e w) = Stop (Uncaught ClientError)
        /\ requests (snd (main loads dumps e w))
           = requests w ++ [Primary "wav" (b64encode data) MAX_TOKENS_PRIMARY]
        /\ fs (snd (main loads dumps e w)) = fs w).
Proof.
  split; [|split].
  - intros [H|H]; unfold main; rewrite H; eexists; reflexivity.
  - intros k. apply main_no_audio.
  - intros k data Hk Ht Hf Hm.
    rewrite (main_client_raises loads dumps e w k data Hk Ht Hf Hm).
    repeat split.
Qed.

Lemma main_stops_early_witness :
  exists msg,
    main loads dumps (mk_env (Some EmptyString) [] "/home/actor"
                        (fun n => mk_datetime 2025 3 9 7 5 n) (fun _ => None)) desk
    = (Stop (SysExit (ExitMsg msg)), desk).
Proof.
  apply (proj1 (main_stops_early loads dumps
                  (mk_env (Some EmptyString) [] "/home/actor"
                     (fun n => mk_datetime 2025 3 9 7 5 n) (fun _ => None)) desk)).
  right. reflexivity.
Defined.

(** The run from the primary call on, for whatever the checks before it
    give. *)
Lemma main_cases loads dumps e w :
  (exists h, main loads dumps e w = (Stop h, w)
             /\ ((exists msg, h = SysExit (ExitMsg msg))
                 \/ h = Uncaught (IsADirectoryError AUDIO_PATH)))
  \/ (exists data,
        fs w !! AUDIO_PATH = Some (File data)
        /\ model e (Primary "wav" (b64encode data) MAX_TOKENS_PRIMARY) = None
        /\ main loads dumps e w
           = (Stop (Uncaught ClientError),
              asked (Primary "wav" (b64encode data) MAX_TOKENS_PRIMARY) w))
  \/ (exists data resp,
        fs w !! AUDIO_PATH = Some (File data)
        /\ model e (Primary "wav" (b64encode data) MAX_TOKENS_PRIMARY) = Some resp
        /\ main loads dumps e w
           = finish_run loads dumps e "wav" (b64encode data) resp
               (asked (Primary "wav" (b64encode data) MAX_TOKENS_PRIMARY) w)).
Proof.
  destruct (api_key e) as [[|c k]|] eqn:Hk;
    try (left; unfold main; rewrite Hk; eexists;
         split; [reflexivity | left; eexists; reflexivity]).
  destruct (fs w !! AUDIO_PATH) as [[|data]|] eqn:Hf.
  - left. unfold main. rewrite Hk. unfold bind at 1.
    unfold encode_audio_for_api. rewrite Hf.
    change (lstrip "." (lower (path_suffix AUDIO_PATH))) with "wav"%string.
    cbn [String.eqb Ascii.eqb Bool.eqb negb orb fst snd].
    eexists. split; [reflexivity | right; reflexivity].
  - destruct (model e (Primary "wav" (b64encode data) MAX_TOKENS_PRIMARY))
      as [resp|] eqn:Hm.
    + right. right. exists data, resp. split; [reflexivity|]. split; [exact Hm|].
      apply (main_reaches_primary loads dumps e (String c k) data resp w Hk
               eq_refl Hf Hm).
    + right. left. exists data. split; [reflexivity|]. split; [exact Hm|].
      apply (main_client_raises loads dumps e w (String c k) data Hk eq_refl Hf Hm).
  - left. unfold main. rewrite Hk. unfold bind at 1.
    unfold encode_audio_for_api. rewrite Hf.
    eexists. split; [reflexivity | left; eexists; reflexivity].
Qed.

(** How a run ends once the primary reply is there. *)
Lemma finish_run_outcome loads dumps e fmt b64 resp w :
  (fst (finish_run loads dumps e fmt b64 resp w) = Next tt
   /\ exists t v,
        fs (snd (finish_run loads dumps e fmt b64 resp w)) !! json_path e t
        = Some (File (dumps v)))
  \/ fst (finish_run loads dumps e fmt b64 resp w) = Stop (SysExit (ExitCode 1))
  \/ fst (finish_run loads dumps e fmt b64 resp w) = Stop (Uncaught ClientError).
Proof.
  destruct (try_parse_result loads e resp w) as (parsed0 & w0 & Htp & _ & _ & _).
  rewrite (finish_run_after_try loads dumps e fmt b64 resp w parsed0 w0 Htp).
  assert (Hcase : {needs_continuation parsed0 (finish_reason resp) = true}
                  + {needs_continuation parsed0 (finish_reason resp) = false})
    by (destruct (needs_continuation parsed0 (finish_reason resp)); auto).
  destruct Hcase as [Hn|Hn].
  - destruct (model e (Continuation fmt b64 (reply_text resp) MAX_TOKENS_CONTINUE))
      as [resp2|] eqn:Hm.
    + destruct (parse_json_or_raise loads (reply_text resp2)) as [v2|err] eqn:Hp2.
      * destruct (continuation_parsed loads e fmt b64 (reply_text resp) w0
                    resp2 v2 Hm Hp2) as (w1 & Hc & _ & _).
        destruct (finish_run_tail loads dumps e fmt b64 resp parsed0 w0
                    (v2, reply_text resp2) w1) as (w2 & -> & _ & Hfs).
        { rewrite Hn. exact Hc. }
        left. split; [reflexivity|]. exists (ticks w1), v2. exact Hfs.
      * destruct (continuation_unparsed loads e fmt b64 (reply_text resp) w0
                    resp2 err Hm Hp2) as (w1 & Hc & _ & _).
        rewrite (finish_run_halts loads dumps e fmt b64 resp parsed0 w0
                   (SysExit (ExitCode 1)) w1) by (rewrite Hn; exact Hc).
        right. left. reflexivity.
    + destruct (continuation_no_reply loads e fmt b64 (reply_text resp) w0 Hm)
        as (w1 & Hc & _).
      rewrite (finish_run_halts loads dumps e fmt b64 resp parsed0 w0
                 (Uncaught ClientError) w1) by (rewrite Hn; exact Hc).
      right. right. reflexivity.
  - destruct (finish_run_tail loads dumps e fmt b64 resp parsed0 w0
                (parsed0, reply_text resp) w0) as (w2 & -> & _ & Hfs).
    { rewrite Hn. reflexivity. }
    left. split; [reflexivity|]. exists (ticks w0), parsed0. exact Hfs.
Qed.

(** X13.  In every run, whatever the environment does, the exit status
    is 0 or 1, and a run that ends with status 0 has written a JSON result
    file. *)
Theorem main_status
    (loads : string -> option value) (dumps : value -> string)
    (e : env) (w : world) :
  (exit_status (fst (main loads dumps e w)) = 0
   \/ exit_status (fst (main loads dumps e w)) = 1)
  /\ (exit_status (fst (main loads dumps e w)) = 0 ->
      exists t v,
        fs (snd (main loads dumps e w)) !! json_path e t = Some (File (dumps v))).
Proof.
  destruct (main_cases loads dumps e w)
    as [(h & Hm & Hh) | [(data & _ & _ & Hm) | (data & resp & _ & _ & Hm)]].
  - rewrite Hm. destruct Hh as [[msg ->] | ->]; simpl;
      (split; [right; reflexivity | intros H; discriminate]).
  - rewrite Hm. simpl. split; [right; reflexivity | intros H; discriminate].
  - rewrite Hm.
    destruct (finish_run_outcome loads dumps e "wav" (b64encode data) resp
                (asked (Primary "wav" (b64encode data) MAX_TOKENS_PRIMARY) w))
      as [[Ho Hfs] | [Ho | Ho]]; rewrite Ho; simpl.
    + split; [left; reflexivity | intros _; exact Hfs].
    + split; [right; reflexivity | intros H; discriminate].
    + split; [right; reflexivity | intros H; discriminate].
Qed.

Lemma main_status_witness :
  exists t v,
    fs (snd (main loads dumps (studio good_reply prose_reply) desk))
      !! json_path (studio good_reply prose_reply) t
    = Some (File (dumps v)).
Proof.
  apply (proj2 (main_status loads dumps (studio good_reply prose_reply) desk)).
  vm_compute. reflexivity.
Defined.

(** X14.  In every run, whatever the environment does, the tool makes no
    request, or the primary request alone, or the primary request followed
    by one continuation request; each request carries the format wav and
    the base64 text of [sample.wav], and the continuation carries the text
    of the primary reply. *)
Theorem main_requests
    (loads : string -> option value) (dumps : value -> string)
    (e : env) (w : world) :
  requests (snd (main loads dumps e w)) = requests w
  \/ exists data,
       fs w !! AUDIO_PATH = Some (File data)
       /\ (requests (snd (main loads dumps e w))
           = requests w ++ [Primary "wav" (b64encode data) MAX_TOKENS_PRIMARY]
           \/ exists resp,
                model e (Primary "wav" (b64encode data) MAX_TOKENS_PRIMARY)
                = Some resp
                /\ requests (snd (main loads dumps e w))
                   = requests w
                     ++ [Primary "wav" (b64encode data) MAX_TOKENS_PRIMARY;
                         Continuation "wav" (b64encode data) (reply_text resp)
                           MAX_TOKENS_CONTINUE]).
Proof.
  destruct (main_cases loads dumps e w)
    as [(h & Hm & _) | [(data & Hf & _ & Hm) | (data & resp & Hf & Hr & Hm)]].
  - left. rewrite Hm. reflexivity.
  - right. exists data. split; [exact Hf|]. left. rewrite Hm. reflexivity.
  - right. exists data. split; [exact Hf|]. rewrite Hm, finish_run_requests.
    cbn [asked requests]. rewrite <- app_assoc.
    destruct (retries loads resp).
    + right. exists resp. split; [exact Hr | reflexivity].
    + left. reflexivity.
Qed.

End SmokeRuns.

(* ===================================================================== *)
(** * More of gui.py                                                      *)
(* ===================================================================== *)

Module GuiMore.

Import Gui.

(** ** The selected file, the message boxes and the commands *)

Definition chosen (g : gui) : Prop :=
  exists c p, audio_path g = Some (String c p).

(** Facts about the selected path that every step keeps. *)
Definition inv_path (g : gui) : Prop :=
  (audio_path g = None \/ chosen g)
  /\ (run_button g = normal -> chosen g)
  /\ Forall (fun d => d <> ShowWarning "No Audio") (dialogs g)
  /\ Forall (fun cmd => exists c p, cmd = command (String c p)) (popen_log g).

Lemma inv_path_init : inv_path init.
Proof.
  split; [left; reflexivity|]. split; [discriminate|].
  split; apply List.Forall_nil.
Qed.

Lemma inv_path_select path g : inv_path g -> inv_path (select_file path g).
Proof.
  intros (H1 & H2 & H3 & H4). unfold select_file.
  destruct path as [|c p]; simpl; [repeat split; assumption|].
  destruct g; unfold inv_path, chosen in *; simpl in *.
  split; [right; do 2 eexists; reflexivity|].
  split; [intros _; do 2 eexists; reflexivity|]. split; assumption.
Qed.

Lemma inv_path_run_analysis se ae g :
  inv_path g -> run_button g = normal -> inv_path (run_analysis se ae g).
Proof.
  intros (H1 & H2 & H3 & H4) Hb. destruct (H2 Hb) as (c & p & Hap).
  unfold run_analysis. rewrite Hap.
  destruct (negb se);
    [|destruct (running g); [|destruct (negb ae)]];
    try (repeat split; assumption);
    destruct g; unfold inv_path, chosen in *; simpl in *;
    (split; [assumption|]); (split; [try assumption; try discriminate|]);
    (split; [|assumption]);
    try assumption;
    try (apply Forall_app; split; [assumption|];
         apply List.Forall_cons; [discriminate | apply List.Forall_nil]).
Qed.

Lemma inv_path_poll_get g :
  inv g -> inv_path g -> inv_path (poll_get g).
Proof.
  intros (_ & Ha & Hf) (H1 & H2 & H3 & H4). unfold poll_get.
  destruct (output_queue g) as [|[message|] q] eqn:Hq.
  - destruct g; unfold inv_path, chosen in *; simpl in *. tauto.
  - destruct g; unfold inv_path, chosen in *; simpl in *. tauto.
  - assert (Hr : running g = true).
    { unfold flow in Hf. destruct (running g); [reflexivity|].
      destruct (threads g); [destruct Hf; congruence | contradiction]. }
    specialize (Ha Hr).
    destruct g; unfold inv_path, chosen in *; simpl in *.
    split; [assumption|]. split; [|split; assumption].
    intros _. destruct H1 as [H1|H1]; [congruence | exact H1].
Qed.

Lemma inv_path_worker c wk g :
  inv_path g ->
  inv_path (fst (worker_step c wk g))
  /\ audio_path (fst (worker_step c wk g)) = audio_path g
  /\ run_button (fst (worker_step c wk g)) = run_button g
  /\ dialogs (fst (worker_step c wk g)) = dialogs g.
Proof.
  intros (H1 & H2 & H3 & H4).
  destruct wk as [|[|line rest] rc|rc|rc| |]; simpl;
    try (destruct g; unfold inv_path, chosen in *; simpl in *; tauto).
  destruct (audio_path g) as [path|] eqn:Hap;
    [|destruct g; unfold inv_path, chosen in *; simpl in *; tauto].
  assert (Hc : exists c0 p0, path = String c0 p0).
  { destruct H1 as [H1|(c0 & p0 & H1)]; [congruence|].
    rewrite Hap in H1. inversion H1. do 2 eexists. reflexivity. }
  destruct Hc as (c0 & p0 & ->).
  destruct c; destruct g; unfold inv_path, chosen in *; simpl in *;
    inversion Hap; subst;
    (split; [|tauto]); (split; [tauto|]); (split; [tauto|]);
    (split; [tauto|]);
    (apply Forall_app; split; [assumption|]; apply List.Forall_cons; [eauto | apply List.Forall_nil]).
Qed.

Lemma inv_path_step g l g' :
  inv g -> inv_path g -> step l g = Some g' -> inv_path g'.
Proof.
  intros Hinv Hp Hs. destruct l as [path|se ae| | |i c]; simpl in Hs.
  - destruct (polling g); [discriminate|]. inversion Hs. subst.
    apply inv_path_select. exact Hp.
  - destruct (polling g); [discriminate|].
    destruct (run_button g) eqn:Hb; [|discriminate]. inversion Hs. subst.
    apply inv_path_run_analysis; assumption.
  - destruct (polling g); [discriminate|].
    destruct (timers g); [discriminate|]. inversion Hs. subst.
    destruct g; unfold inv_path, chosen in *; simpl in *. exact Hp.
  - destruct (polling g); [|discriminate]. inversion Hs. subst.
    apply inv_path_poll_get; assumption.
  - destruct (threads g !! i) as [wk|]; [|discriminate].
    destruct (inv_path_worker c wk g Hp) as (Hp1 & Ha & Hb & Hd).
    destruct (worker_step c wk g) as [g1 next]. simpl in *.
    inversion Hs. subst. clear Hs.
    destruct g1; unfold inv_path, chosen in *; simpl in *. exact Hp1.
Qed.

Lemma reachable_inv_path g : reachable g -> inv_path g.
Proof.
  induction 1 as [|g l g' Hr IH Hs]; [apply inv_path_init|].
  apply (inv_path_step g l g' (reachable_inv g Hr) IH Hs).
Qed.

(** X15.  The Run button is enabled only when a non-empty path has been
    selected, so a click on it never ends in the "No Audio" warning: that
    box is in no reachable state. *)
Theorem run_button_needs_file (g : gui) :
  reachable g ->
  (run_button g = normal -> exists c p, audio_path g = Some (String c p))
  /\ Forall (fun d => d <> ShowWarning "No Audio") (dialogs g).
Proof.
  intros Hr. destruct (reachable_inv_path g Hr) as (_ & H2 & H3 & _).
  split; [exact H2 | exact H3].
Qed.

Lemma run_button_needs_file_witness :
  (run_button half_way_state = normal ->
   exists c p, audio_path half_way_state = Some (String c p))
  /\ Forall (fun d => d <> ShowWarning "No Audio") (dialogs half_way_state).
Proof.
  apply run_button_needs_file.
  apply (run_reachable half_way init _ reach_init half_way_run).
Defined.

(** X16.  Every command the GUI gives to [Popen] is the interpreter with
    the three arguments run.py, --audio and a non-empty path. *)
Theorem popen_commands (g : gui) :
  reachable g ->
  Forall (fun cmd =>
            exists c p,
              cmd = [SysExecutable; Arg "run.py"; Arg "--audio"; Arg (String c p)])
    (popen_log g).
Proof.
  intros Hr. destruct (reachable_inv_path g Hr) as (_ & _ & _ & H4). exact H4.
Qed.

Lemma popen_commands_witness :
  Forall (fun cmd =>
            exists c p,
              cmd = [SysExecutable; Arg "run.py"; Arg "--audio"; Arg (String c p)])
    (popen_log half_way_state).
Proof.
  apply popen_commands.
  apply (run_reachable half_way init _ reach_init half_way_run).
Defined.

(** X17.  The worker reads [self.audio_path] when it starts, not when Run
    was clicked: a file selected between the click and the first statement
    of the worker is the one passed to the child. *)
Theorem command_uses_latest_path (p1 p2 : string) (c : child) :
  PyStr.truthy p1 = true ->
  PyStr.truthy p2 = true ->
  option_map popen_log
    (run [SelectFile p1; ClickRun true true; SelectFile p2; WorkerStep 0 c] init)
  = Some [command p2].
Proof.
  intros H1 H2. destruct p1 as [|c1 p1]; [discriminate|].
  destruct p2 as [|c2 p2]; [discriminate|].
  destruct c; reflexivity.
Qed.

Lemma command_uses_latest_path_witness :
  option_map popen_log
    (run [SelectFile "take1.wav"; ClickRun true true; SelectFile "take2.wav";
          WorkerStep 0 (Started [] 0)] init)
  = Some [command "take2.wav"].
Proof. apply command_uses_latest_path; reflexivity. Defined.

(** ** A child that cannot be started *)

(** X18.  When [Popen] raises [FileNotFoundError], the log of the run is
    the one line "Failed to start python interpreter.": the log, the queue
    and what the worker still owes are that line (and the sentinel while
    the run is on); once the run is over the log is exactly that line; and
    the run can always be completed, which clears the running flag. *)
Theorem failed_start_is_reported (g : gui) :
  reachable g ->
  run_child g = Some NotStarted ->
  map Some (log_text g) ++ output_queue g ++ owed_all g
  = [Some failed_line] ++ (if running g then [None] else [])
  /\ (running g = false -> log_text g = [failed_line])
  /\ exists ls g',
       run ls g = Some g' /\ running g' = false /\ log_text g' = [failed_line].
Proof.
  intros Hreach Hc. pose proof (reachable_inv g Hreach) as Hinv.
  split; [apply (flow_order g NotStarted Hinv Hc)|].
  split; [apply (flow_complete g NotStarted Hinv Hc)|].
  destruct (running g) eqn:Hr.
  - destruct (progress (S (work g)) g ltac:(lia) Hinv Hr)
      as (ls & g' & Hrun & Hend & Hkeep).
    exists ls, g'. split; [exact Hrun|]. split; [exact Hend|].
    apply (flow_complete g' NotStarted).
    + apply reachable_inv. apply (run_reachable ls g g' Hreach Hrun).
    + apply Hkeep, Hc.
    + exact Hend.
  - exists [], g. split; [reflexivity|]. split; [exact Hr|].
    apply (flow_complete g NotStarted Hinv Hc Hr).
Qed.

Definition failed_start : list label :=
  [SelectFile "take1.wav"; ClickRun true true; WorkerStep 0 NotStarted].

Definition failed_start_state : gui := default init (run failed_start init).

Lemma failed_start_run : run failed_start init = Some failed_start_state.
Proof. vm_compute. reflexivity. Qed.

Lemma failed_start_is_reported_witness :
  exists ls g',
    run ls failed_start_state = Some g' /\ running g' = false
    /\ log_text g' = [failed_line].
Proof.
  apply (failed_start_is_reported failed_start_state).
  - apply (run_reachable failed_start init _ reach_init failed_start_run).
  - reflexivity.
Defined.

(** ** The log and the refused clicks *)

Lemma worker_step_log c wk g :
  log_text (fst (worker_step c wk g)) = log_text g.
Proof.
  destruct wk as [|[|line rest] rc|rc|rc| |]; simpl;
    try (destruct g; reflexivity).
  destruct (audio_path g); [destruct c|]; destruct g; reflexivity.
Qed.

(** X19.  The log is cleared only by a call of [run_analysis] that starts
    a run: every other step, a refused click included, leaves the text of
    the log in place and at most appends to it. *)
Theorem log_only_grows (g g' : gui) (l : label) :
  step l g = Some g' ->
  (exists more, log_text g' = log_text g ++ more)
  \/ (exists se ae,
        l = ClickRun se ae /\ running g = false /\ running g' = true
        /\ threads g' = threads g ++ [AtStart] /\ log_text g' = []).
Proof.
  intros Hs. destruct l as [path|se ae| | |i c]; simpl in Hs.
  - left. exists []. destruct (polling g); [discriminate|]. inversion Hs.
    unfold select_file. destruct (PyStr.truthy path); destruct g;
      simpl; rewrite app_nil_r; reflexivity.
  - destruct (polling g); [discriminate|].
    destruct (run_button g); [|discriminate]. inversion Hs. subst g'. clear Hs.
    unfold run_analysis.
    destruct (negb se);
      [left; exists []; destruct g; simpl; rewrite app_nil_r; reflexivity|].
    destruct (audio_path g) as [[|c p]|];
      try (left; exists []; destruct g; simpl; rewrite app_nil_r; reflexivity).
    destruct (running g) eqn:Hr;
      [left; exists []; rewrite app_nil_r; reflexivity|].
    destruct (negb ae);
      [left; exists []; destruct g; simpl; rewrite app_nil_r; reflexivity|].
    right. exists se, ae. destruct g; simpl in *. repeat split; assumption.
  - left. exists []. destruct (polling g); [discriminate|].
    destruct (timers g); [discriminate|]. inversion Hs.
    destruct g; simpl; rewrite app_nil_r; reflexivity.
  - left. destruct (polling g); [|discriminate]. inversion Hs.
    unfold poll_get. destruct (output_queue g) as [|[message|] q].
    + exists []. destruct g; simpl; rewrite app_nil_r; reflexivity.
    + exists [message]. destruct g; reflexivity.
    + exists []. destruct g; simpl; rewrite app_nil_r; reflexivity.
  - left. exists []. destruct (threads g !! i) as [wk|]; [|discriminate].
    pose proof (worker_step_log c wk g) as Hl.
    destruct (worker_step c wk g) as [g1 next]. inversion Hs.
    simpl in Hl. destruct g1; simpl in *. rewrite app_nil_r. exact Hl.
Qed.

Lemma log_only_grows_witness :
  (exists more, log_text (poll_get half_way_state)
                = log_text half_way_state ++ more)
  \/ (exists se ae,
        PollGet = ClickRun se ae
        /\ running half_way_state = false
        /\ running (poll_get half_way_state) = true
        /\ threads (poll_get half_way_state)
           = threads half_way_state ++ [AtStart]
        /\ log_text (poll_get half_way_state) = []).
Proof.
  apply (log_only_grows half_way_state (poll_get half_way_state) PollGet).
  reflexivity.
Defined.

(** X20.  A call of [run_analysis] that starts no thread changes nothing
    but the list of message boxes, to which it adds at most one: the
    flag, the log, the queue, the selected path and the Run button are as
    before.  A missing script is reported before anything else is looked
    at. *)
Theorem run_analysis_refused (se ae : bool) (g : gui) :
  (threads (run_analysis se ae g) = threads g ->
   running (run_analysis se ae g) = running g
   /\ log_text (run_analysis se ae g) = log_text g
   /\ output_queue (run_analysis se ae g) = output_queue g
   /\ audio_path (run_analysis se ae g) = audio_path g
   /\ run_button (run_analysis se ae g) = run_button g
   /\ (dialogs (run_analysis se ae g) = dialogs g
       \/ exists d, dialogs (run_analysis se ae g) = dialogs g ++ [d]))
  /\ (se = false ->
      run_analysis se ae g = show (ShowError "Missing Script") g).
Proof.
  split.
  - unfold run_analysis.
    destruct (negb se);
      [intros _; destruct g; simpl; repeat split; right; eexists; reflexivity|].
    destruct (audio_path g) as [[|c p]|] eqn:Hap;
      try (intros _; destruct g; simpl in *; repeat split;
           try assumption; right; eexists; reflexivity).
    destruct (running g) eqn:Hr;
      [intros _; repeat split; try assumption; left; reflexivity|].
    destruct (negb ae);
      [intros _; destruct g; simpl in *; repeat split;
       try assumption; right; eexists; reflexivity|].
    intros H. exfalso. destruct g; simpl in H.
    apply (f_equal (@length worker)) in H. rewrite length_app in H.
    simpl in H. lia.
  - intros ->. reflexivity.
Qed.

Lemma run_analysis_refused_witness :
  running (run_analysis true false (select_file "take1.wav" init)) = false
  /\ log_text (run_analysis true false (select_file "take1.wav" init)) = []
  /\ output_queue (run_analysis true false (select_file "take1.wav" init)) = []
  /\ audio_path (run_analysis true false (select_file "take1.wav" init))
     = Some "take1.wav"%string
  /\ run_button (run_analysis true false (select_file "take1.wav" init)) = normal
  /\ (dialogs (run_analysis true false (select_file "take1.wav" init)) = []
      \/ exists d,
           dialogs (run_analysis true false (select_file "take1.wav" init))
           = [] ++ [d]).
Proof.
  apply (proj1 (run_analysis_refused true false (select_file "take1.wav" init))).
  reflexivity.
Defined.

(** ** [_poll_queue] as one call *)

(** The turns of the loop, for as long as the poll goes on. *)
Fixpoint poll_turns (fuel : nat) (g : gui) : gui :=
  match fuel with
  | O => g
  | S fuel' =>
      let g' := poll_get g in
      if polling g' then poll_turns fuel' g' else g'
  end.

(** [_poll_queue] running without a worker putting items meanwhile: it
    takes at most every item of the queue and then finds it empty. *)
Definition _poll_queue (g : gui) : gui :=
  poll_turns (S (length (output_queue g))) (set_polling true g).

Lemma poll_turns_texts ms :
  forall fuel g,
    polling g = true ->
    (length ms < fuel)%nat ->
    output_queue g = map Some ms ->
    poll_turns fuel g
    = reschedule (set_log_text (log_text g ++ ms) (set_output_queue [] g)).
Proof.
  induction ms as [|m ms IH]; intros fuel g Hp Hlt Hq;
    (destruct fuel as [|fuel]; [simpl in Hlt; lia|]).
  - simpl. unfold poll_get. rewrite Hq. simpl.
    destruct g; simpl in *. subst. rewrite app_nil_r. reflexivity.
  - simpl. unfold poll_get at 1 2 3. rewrite Hq. simpl.
    destruct g as [ap rn sv rb lg qu tm th dl pl rc pg]. simpl in *. subst.
    rewrite (IH fuel) by (simpl in *; try reflexivity; lia). simpl.
    rewrite <- app_assoc. reflexivity.
Qed.

Lemma poll_turns_sentinel ms rest :
  forall fuel g,
    polling g = true ->
    (length ms < fuel)%nat ->
    output_queue g = map Some ms ++ None :: rest ->
    poll_turns fuel g
    = reschedule
        (set_run_button normal
           (set_running false
              (set_log_text (log_text g ++ ms) (set_output_queue rest g)))).
Proof.
  induction ms as [|m ms IH]; intros fuel g Hp Hlt Hq;
    (destruct fuel as [|fuel]; [simpl in Hlt; lia|]).
  - simpl. unfold poll_get. rewrite Hq. simpl.
    destruct g; simpl in *. subst. rewrite app_nil_r. reflexivity.
  - simpl. unfold poll_get at 1 2 3. rewrite Hq. simpl.
    destruct g as [ap rn sv rb lg qu tm th dl pl rc pg]. simpl in *. subst.
    rewrite (IH fuel) by (simpl in *; try reflexivity; lia). simpl.
    rewrite <- app_assoc. reflexivity.
Qed.

(** The steps of the model make up the call: the timer fires and the
    turns follow without a worker step in between. *)
Lemma poll_turns_run fuel :
  forall g,
    polling g = true ->
    (length (output_queue g) < fuel)%nat ->
    exists n, run (repeat PollGet n) g = Some (poll_turns fuel g).
Proof.
  induction fuel as [|fuel IH]; intros g Hp Hlt; [lia|].
  simpl. destruct (polling (poll_get g)) eqn:Hp'.
  - destruct (IH (poll_get g) Hp') as [n Hn].
    { unfold poll_get in *. destruct (output_queue g) as [|[m|] q] eqn:Hq;
        destruct g; simpl in *; subst; try discriminate; lia. }
    exists (S n). simpl. rewrite Hp. exact Hn.
  - exists 1%nat. simpl. rewrite Hp. reflexivity.
Qed.

(** X21.  One call of [_poll_queue] on a queue of texts moves them all to
    the log, in order, and leaves the flag and the button alone; on a
    queue with a sentinel it moves the texts in front of the sentinel,
    clears the flag, enables the Run button and stops: the items behind
    the sentinel stay in the queue.  Either way it schedules itself again
    after 100 ms.  The call is a sequence of turns of the step model. *)
Theorem poll_queue_call (g : gui) (ms : list string) :
  (exists n, run (repeat PollGet n) (set_polling true g) = Some (_poll_queue g))
  /\ (output_queue g = map Some ms ->
   log_text (_poll_queue g) = log_text g ++ ms
   /\ output_queue (_poll_queue g) = []
   /\ running (_poll_queue g) = running g
   /\ run_button (_poll_queue g) = run_button g
   /\ timers (_poll_queue g) = timers g ++ [100%nat])
  /\ (forall rest,
        output_queue g = map Some ms ++ None :: rest ->
        log_text (_poll_queue g) = log_text g ++ ms
        /\ output_queue (_poll_queue g) = rest
        /\ running (_poll_queue g) = false
        /\ run_button (_poll_queue g) = normal
        /\ timers (_poll_queue g) = timers g ++ [100%nat]).
Proof.
  split; [|split].
  - apply poll_turns_run; destruct g; simpl; [reflexivity | lia].
  - intros Hq. unfold _poll_queue.
    rewrite (poll_turns_texts ms).
    + destruct g; simpl. repeat split.
    + destruct g; reflexivity.
    + rewrite Hq, length_map. lia.
    + destruct g; simpl in *. exact Hq.
  - intros rest Hq. unfold _poll_queue.
    rewrite (poll_turns_sentinel ms rest).
    + destruct g; simpl. repeat split.
    + destruct g; reflexivity.
    + rewrite Hq, length_app, length_map. simpl. lia.
    + destruct g; simpl in *. exact Hq.
Qed.

Lemma poll_queue_call_witness :
  log_text (_poll_queue (put (Some "late"%string)
                           (put None (put (Some "one"%string) init))))
  = [] ++ ["one"%string]
  /\ output_queue (_poll_queue (put (Some "late"%string)
                                  (put None (put (Some "one"%string) init))))
     = [Some "late"%string]
  /\ running (_poll_queue (put (Some "late"%string)
                             (put None (put (Some "one"%string) init)))) = false
  /\ run_button (_poll_queue (put (Some "late"%string)
                                (put None (put (Some "one"%string) init)))) = normal
  /\ timers (_poll_queue (put (Some "late"%string)
                            (put None (put (Some "one"%string) init))))
     = [100%nat] ++ [100%nat].
Proof.
  apply (proj2 (proj2 (poll_queue_call
                  (put (Some "late"%string) (put None (put (Some "one"%string) init)))
                  ["one"%string])) [Some "late"%string]).
  reflexivity.
Defined.

End GuiMore.

(* ===================================================================== *)
(** * More of audio_analysis_smoke.py: edges of the helpers               *)
(* ===================================================================== *)

Module SmokeEdges.

Import PyStr.
Import Smoke.

(** X22.  [encode_audio_for_api] never changes the world, and a directory
    whose name ends in .wav or .mp3 passes both checks and makes [open]
    raise [IsADirectoryError], which nothing catches. *)
Theorem encode_audio_directory (e : env) (path : string) (w : world) :
  snd (encode_audio_for_api e path w) = w
  /\ (fs w !! path = Some Dir ->
      lower (path_suffix path) = ".wav"%string
      \/ lower (path_suffix path) = ".mp3"%string ->
      fst (encode_audio_for_api e path w)
      = Stop (Uncaught (IsADirectoryError path))).
Proof.
  split; [apply SmokeRuns.encode_audio_world|].
  intros Hd Hext. unfold encode_audio_for_api. rewrite Hd.
  apply (fmt_accepted path) in Hext. rewrite Hext. reflexivity.
Qed.

Lemma encode_audio_directory_witness :
  fst (encode_audio_for_api sample_env "takes.wav"
         (mk_world (<["takes.wav"%string := Dir]> ∅) [] [] 0))
  = Stop (Uncaught (IsADirectoryError "takes.wav")).
Proof.
  apply (proj2 (encode_audio_directory sample_env "takes.wav"
                  (mk_world (<["takes.wav"%string := Dir]> ∅) [] [] 0)));
    [reflexivity | left; reflexivity].
Defined.



End SmokeEdges.
